(** * LinkBridge: the MIDI clock generators [clock.py] and [debugAutomaticClock.py]

    Both scripts drive an external MIDI transport (a C library reached through
    ctypes) from one loop: send a clock pulse, count it, advance an absolute
    deadline by the tick interval and sleep until that deadline.  The second
    script also walks a cyclic list of tempi, one entry every ten seconds.

    Modelling choices.
    - Seconds (the Python floats returned by [time.monotonic] and the
      tick interval) are exact rationals, [Qc], in the two scripts'
      modules.  The tick-interval calculator is also given as the scripts
      compute it, in binary64 ([Binary64]), to measure what the exact
      seconds leave out.
    - Python integers are [Z]; the values returned by the C library are [Z]
      and are tested with [< 0] as in the scripts.
    - The outside world is an explicit input: what each library call returns,
      what each [time.monotonic()] call returns, and how many times the
      [while running] test is passed before a signal clears the flag.
    - What a run does to the outside world is a chronological list of
      [Event]s: library calls, sleeps and printed lines. *)

From Stdlib Require Import ZArith QArith Qcanon Qabs List Bool Lia Lqa.
From Stdlib Require PrimFloat FloatOps SpecFloat.
Import ListNotations.

Open Scope Z_scope.

(** ** Rational seconds *)

Definition Z2Qc (z : Z) : Qc := Q2Qc (inject_Z z).

(** [x < y] and [x <= y] on seconds, as the booleans the scripts branch on. *)
Definition Qcltb (x y : Qc) : bool :=
  match (x ?= y)%Qc with Lt => true | _ => false end.

Definition Qcleb (x y : Qc) : bool :=
  match (x ?= y)%Qc with Gt => false | _ => true end.

(** ** Constants shared by the two scripts (lines 10-11 of both) *)

Definition BPM : Z := 120.
Definition PPQN : Z := 24.

(** ** Observable behaviour *)

(** The entry points of the C library that the scripts call. *)
Inductive LibCall : Type :=
| midi_init
| midi_set_tempo (bpm : Z)
| midi_get_client_id
| midi_get_port_id
| midi_get_queue_id
| midi_send_start
| midi_send_clock
| midi_send_stop
| midi_get_tick_count
| midi_cleanup.

(** The lines the scripts print, by content; decorative lines (blank lines,
    the title and its underline) are folded into the neighbouring message. *)
Inductive Msg : Type :=
| LibraryNotFound
| LibraryLoadError
| Banner (bpm ppqn : Z)
| Initializing
| ErrorInit
| WarnSetTempo (bpm : Z)
| Ids (client port queue : Z)
| ErrorStart
| TickIntervalInfo (tick_interval : Qc)
| TempoChanged (bpm : Z)
| ErrorClock
| BeatStatus (beat tick queue_tick : Z)
| ErrorInLoop
| Stopping
| TotalTicks (n : Z)
| TotalBeats (n : Z)
| ShutdownComplete.

Inductive Event : Type :=
| Call (c : LibCall)
| Sleep (seconds : Qc)
| Print (m : Msg).

(** How one pass through the loop body ends: it falls through to the next
    [while running] test, leaves by [break], or raises an exception that the
    [except Exception] clause around the loop catches. *)
Inductive Flow : Type := Continue | Break | Raise.

(** How [main] ends: by a [return], or by an exception raised outside the
    [try] block. *)
Inductive Outcome : Type :=
| Returned (status : Z)
| Uncaught.

(** ** The pulse cycle

    Lines 104-126 of clock.py and lines 135-157 of debugAutomaticClock.py are
    the same text over the same four local variables. *)

Record Ticker : Type := mkTicker {
  tick_interval : Qc;
  next_tick_time : Qc;
  tick_count : Z;
  beat_count : Z
}.

(** What the world answers during one pulse cycle. *)
Record Pulse : Type := mkPulse {
  send_clock_ret : Z;   (* midi_send_clock() *)
  queue_tick : Z;       (* midi_get_tick_count(), when called *)
  now_wait : Qc;        (* time.monotonic() in the sleep_time computation *)
  now_resync : Qc       (* time.monotonic() in the resync assignment, when reached *)
}.

(** [tick_count += 1] and the status line every [PPQN] ticks. *)
Definition count_tick (p : Pulse) (s : Ticker) : Ticker * list Event :=
  let tick_count' := tick_count s + 1 in
  if tick_count' mod PPQN =? 0 then
    let beat_count' := beat_count s + 1 in
    (mkTicker (tick_interval s) (next_tick_time s) tick_count' beat_count',
     [Call midi_get_tick_count;
      Print (BeatStatus beat_count' tick_count' (queue_tick p))])
  else
    (mkTicker (tick_interval s) (next_tick_time s) tick_count' (beat_count s), []).

(** [next_tick_time += tick_interval], then sleep or resynchronise. *)
Definition wait_next_tick (p : Pulse) (s : Ticker) : Ticker * list Event :=
  let next_tick_time' := (next_tick_time s + tick_interval s)%Qc in
  let sleep_time := (next_tick_time' - now_wait p)%Qc in
  if Qcltb 0%Qc sleep_time then
    (mkTicker (tick_interval s) next_tick_time' (tick_count s) (beat_count s),
     [Sleep sleep_time])
  else if Qcltb sleep_time (- tick_interval s)%Qc then
    (mkTicker (tick_interval s) (now_resync p) (tick_count s) (beat_count s), [])
  else
    (mkTicker (tick_interval s) next_tick_time' (tick_count s) (beat_count s), []).

Definition pulse_cycle (p : Pulse) (s : Ticker) : Flow * Ticker * list Event :=
  if send_clock_ret p <? 0 then
    (Break, s, [Call midi_send_clock; Print ErrorClock])
  else
    let '(s1, ev1) := count_tick p s in
    let '(s2, ev2) := wait_next_tick p s1 in
    (Continue, s2, Call midi_send_clock :: ev1 ++ ev2).

(** The code after the loop, the same in both scripts (clock.py 131-148,
    debugAutomaticClock.py 162-179); both end in [return 0]. *)
Definition grace_delay : Qc := Q2Qc (1 # 10).

Definition shutdown (s : Ticker) : Z * list Event :=
  (0, [Print Stopping;
       Call midi_send_stop;
       Sleep grace_delay;
       Call midi_cleanup;
       Print (TotalTicks (tick_count s));
       Print (TotalBeats (beat_count s));
       Print ShutdownComplete]).

(** ** clock.py *)

Module Clock.

(** [calculate_tick_interval()] reads the global [BPM]; the division by
    [ticks_per_second] raises ZeroDivisionError on zero. *)
Definition calculate_tick_interval : option Qc :=
  let ticks_per_second := ((Z2Qc BPM / Z2Qc 60) * Z2Qc PPQN)%Qc in
  if Qc_eq_bool ticks_per_second 0%Qc then None
  else Some (1 / ticks_per_second)%Qc.

Record Env : Type := mkEnv {
  lib_exists : bool;     (* os.path.exists(lib_path) *)
  lib_loads : bool;      (* ctypes.CDLL(lib_path) raises no OSError *)
  init_ret : Z;          (* midi_init() *)
  client_id : Z;
  port_id : Z;
  queue_id : Z;
  start_ret : Z;         (* midi_send_start() *)
  t_start : Qc;          (* time.monotonic() at line 96 *)
  cycles : list Pulse    (* one entry per passed [while running] test *)
}.

(** The state the loop starts from (lines 91-98). *)
Definition init_ticker (interval t : Qc) : Ticker := mkTicker interval t 0 0.

(** [while running: ...] inside [try], lines 101-129.  The flag is found
    cleared when the script of cycles is used up. *)
Fixpoint loop (cs : list Pulse) (s : Ticker) : Ticker * list Event :=
  match cs with
  | [] => (s, [])
  | p :: cs' =>
      match pulse_cycle p s with
      | (Continue, s', ev) =>
          let '(s'', ev') := loop cs' s' in (s'', ev ++ ev')
      | (Break, s', ev) => (s', ev)
      | (Raise, s', ev) => (s', ev ++ [Print ErrorInLoop])
      end
  end.

Definition startup (e : Env) : list Event :=
  [Print (Banner BPM PPQN); Print Initializing; Call midi_init].

Definition announce (e : Env) : list Event :=
  [Call midi_get_client_id; Call midi_get_port_id; Call midi_get_queue_id;
   Print (Ids (client_id e) (port_id e) (queue_id e));
   Call midi_send_start].

Definition main (e : Env) : Outcome * list Event :=
  if negb (lib_exists e) then (Returned 1, [Print LibraryNotFound])
  else if negb (lib_loads e) then (Returned 1, [Print LibraryLoadError])
  else if init_ret e <? 0 then (Returned 1, startup e ++ [Print ErrorInit])
  else if start_ret e <? 0 then
    (Returned 1, startup e ++ announce e ++ [Print ErrorStart; Call midi_cleanup])
  else
    match calculate_tick_interval with
    | None => (Uncaught, startup e ++ announce e)
    | Some interval =>
        let '(s, ev) := loop (cycles e) (init_ticker interval (t_start e)) in
        let '(status, ev') := shutdown s in
        (Returned status,
         startup e ++ announce e ++ [Print (TickIntervalInfo interval)] ++ ev ++ ev')
    end.

End Clock.

(** ** debugAutomaticClock.py *)

Module DebugAutomaticClock.

(** [calculate_tick_interval(bpm)], lines 22-25; the division by
    [ticks_per_second] raises ZeroDivisionError on zero. *)
Definition calculate_tick_interval (bpm : Z) : option Qc :=
  let ticks_per_second := ((Z2Qc bpm / Z2Qc 60) * Z2Qc PPQN)%Qc in
  if Qc_eq_bool ticks_per_second 0%Qc then None
  else Some (1 / ticks_per_second)%Qc.

(** Line 100. *)
Definition bpm_sequence : list Z := [80; 140; 120].

(** The period between two tempo changes, the literal [10.0]. *)
Definition change_period : Qc := Z2Qc 10.

(** The local variables of [main] that the loop reads and writes. *)
Record State : Type := mkState {
  current_bpm : Z;
  seq_index : nat;
  next_change_time : Qc;
  ticker : Ticker
}.

(** What the world answers during one pass through the loop body. *)
Record Cycle : Type := mkCycle {
  now : Qc;             (* time.monotonic() at line 120 *)
  set_tempo_ret : Z;    (* midi_set_tempo(new_bpm), when called *)
  pulse : Pulse
}.

Definition set_next_tick_time (t : Qc) (s : Ticker) : Ticker :=
  mkTicker (tick_interval s) t (tick_count s) (beat_count s).

Definition set_tick_interval (i : Qc) (s : Ticker) : Ticker :=
  mkTicker i (next_tick_time s) (tick_count s) (beat_count s).

(** The tempo-change check, lines 120-132.  [bpm_sequence[seq_index]]
    raises IndexError out of range; the assignments made before an
    exception stay made. *)
Definition tempo_change_check (c : Cycle) (st : State)
  : Flow * State * list Event :=
  if Qcleb (next_change_time st) (now c) then
    match nth_error bpm_sequence (seq_index st) with
    | None => (Raise, st, [])
    | Some new_bpm =>
        let advance (bpm : Z) (tk : Ticker) : State :=
          mkState bpm
                  ((seq_index st + 1) mod length bpm_sequence)%nat
                  (next_change_time st + change_period)%Qc
                  (set_next_tick_time (now c) tk) in
        if set_tempo_ret c <? 0 then
          (Continue, advance (current_bpm st) (ticker st),
           [Call (midi_set_tempo new_bpm); Print (WarnSetTempo new_bpm)])
        else
          match calculate_tick_interval new_bpm with
          | None =>
              (Raise,
               mkState new_bpm (seq_index st) (next_change_time st) (ticker st),
               [Call (midi_set_tempo new_bpm)])
          | Some interval =>
              (Continue, advance new_bpm (set_tick_interval interval (ticker st)),
               [Call (midi_set_tempo new_bpm); Print (TempoChanged new_bpm)])
          end
    end
  else (Continue, st, []).

(** One pass through the loop body, lines 119-157. *)
Definition cycle (c : Cycle) (st : State) : Flow * State * list Event :=
  match tempo_change_check c st with
  | (Continue, st1, ev1) =>
      let '(flow, tk, ev2) := pulse_cycle (pulse c) (ticker st1) in
      (flow,
       mkState (current_bpm st1) (seq_index st1) (next_change_time st1) tk,
       ev1 ++ ev2)
  | stopped => stopped
  end.

(** [while running: ...] inside [try], lines 117-160. *)
Fixpoint loop (cs : list Cycle) (st : State) : State * list Event :=
  match cs with
  | [] => (st, [])
  | c :: cs' =>
      match cycle c st with
      | (Continue, st', ev) =>
          let '(st'', ev') := loop cs' st' in (st'', ev ++ ev')
      | (Break, st', ev) => (st', ev)
      | (Raise, st', ev) => (st', ev ++ [Print ErrorInLoop])
      end
  end.

Record Env : Type := mkEnv {
  lib_exists : bool;     (* os.path.exists(lib_path) *)
  lib_loads : bool;      (* ctypes.CDLL(lib_path) raises no OSError *)
  init_ret : Z;          (* midi_init() *)
  tempo_ret : Z;         (* midi_set_tempo(BPM) at line 75 *)
  client_id : Z;
  port_id : Z;
  queue_id : Z;
  start_ret : Z;         (* midi_send_start() *)
  t_change : Qc;         (* time.monotonic() at line 107 *)
  t_start : Qc;          (* time.monotonic() at line 112 *)
  cycles : list Cycle    (* one entry per passed [while running] test *)
}.

(** The state the loop starts from (lines 96-114). *)
Definition init_state (interval t_change t_start : Qc) : State :=
  mkState BPM 0 (t_change + change_period)%Qc (mkTicker interval t_start 0 0).

Definition startup (e : Env) : list Event :=
  [Print (Banner BPM PPQN); Print Initializing; Call midi_init].

Definition announce (e : Env) : list Event :=
  Call (midi_set_tempo BPM)
  :: (if tempo_ret e <? 0 then [Print (WarnSetTempo BPM)] else [])
  ++ [Call midi_get_client_id; Call midi_get_port_id; Call midi_get_queue_id;
      Print (Ids (client_id e) (port_id e) (queue_id e));
      Call midi_send_start].

Definition main (e : Env) : Outcome * list Event :=
  if negb (lib_exists e) then (Returned 1, [Print LibraryNotFound])
  else if negb (lib_loads e) then (Returned 1, [Print LibraryLoadError])
  else if init_ret e <? 0 then (Returned 1, startup e ++ [Print ErrorInit])
  else if start_ret e <? 0 then
    (Returned 1, startup e ++ announce e ++ [Print ErrorStart; Call midi_cleanup])
  else
    match calculate_tick_interval BPM with
    | None => (Uncaught, startup e ++ announce e)
    | Some interval =>
        let '(st, ev) :=
          loop (cycles e) (init_state interval (t_change e) (t_start e)) in
        let '(status, ev') := shutdown (ticker st) in
        (Returned status,
         startup e ++ announce e ++ [Print (TickIntervalInfo interval)] ++ ev ++ ev')
    end.

(** *** A world without stalls

    Virtual time stands still while the loop body runs and moves only in
    [time.sleep]; every library call succeeds. *)

Definition ideal_cycle (t : Qc) : Cycle :=
  mkCycle t 0 (mkPulse 0 0 t t).

(** Total time slept in a list of events. *)
Definition slept (ev : list Event) : Qc :=
  fold_right (fun e acc => match e with Sleep d => (d + acc)%Qc | _ => acc end)
             0%Qc ev.

(** The answers of the stall-free world to the first [n] cycles of a loop
    entered at time [t] in state [st]. *)
Fixpoint ideal_script (n : nat) (t : Qc) (st : State) : list Cycle :=
  match n with
  | O => []
  | S n' =>
      let c := ideal_cycle t in
      let '(_, st', ev) := cycle c st in
      c :: ideal_script n' (t + slept ev)%Qc st'
  end.

(** A stall-free run started at time [t0] and cancelled after [n] cycles. *)
Definition ideal_env (t0 : Qc) (n : nat) : Env :=
  let interval :=
    match calculate_tick_interval BPM with Some i => i | None => 0%Qc end in
  mkEnv true true 0 0 128 0 0 0 t0 t0
        (ideal_script n t0 (init_state interval t0 t0)).

(** The loop state in force at time [T] of the stall-free run entered at
    time [t] in state [st]: the state left by the last cycle begun at or
    before [T]. *)
Fixpoint ideal_state_at (fuel : nat) (T t : Qc) (st : State) : option State :=
  match fuel with
  | O => None
  | S fuel' =>
      if Qcltb T t then Some st
      else
        match cycle (ideal_cycle t) st with
        | (Continue, st', ev) => ideal_state_at fuel' T (t + slept ev)%Qc st'
        | (_, st', _) => Some st'
        end
  end.

(** The tempo in force [T] seconds into the stall-free run that [main]
    starts at time 0. *)
Definition ideal_tempo_at (T : Z) : option Z :=
  match calculate_tick_interval BPM with
  | None => None
  | Some interval =>
      option_map current_bpm
                 (ideal_state_at 4000 (Z2Qc T) 0%Qc (init_state interval 0%Qc 0%Qc))
  end.

(** The schedule as the specification words it: entries fire at 10 s, 20 s,
    30 s, ... after the start, cyclically; the entry most recently due at
    second [T] is the one that fired last, and none has fired before 10 s. *)
Definition spec_most_recently_due (T : Z) : option Z :=
  if T <? 10 then None
  else nth_error bpm_sequence (Z.to_nat ((T / 10 - 1) mod 3)).

(** The tempo changes a trace applied, in order. *)
Definition tempo_changes (ev : list Event) : list Z :=
  flat_map (fun e => match e with Print (TempoChanged b) => [b] | _ => [] end) ev.

End DebugAutomaticClock.

(** ** The tick-interval calculator in binary64

    [calculate_tick_interval], lines 22-25 of debugAutomaticClock.py (and
    lines 22-26 of clock.py at the global [BPM]), on Python floats: IEEE 754
    binary64, every operation rounded to nearest, ties to even. *)

Module Binary64.

Import PrimFloat.

Inductive Raised : Type := OverflowError | ZeroDivisionError.

(** The conversion Python applies to an int operand of a float operation:
    the nearest binary64 value; OverflowError when the int is beyond the
    largest finite one. *)
Definition float_of_int (z : Z) : Raised + float :=
  let f := FloatOps.SF2Prim
             (SpecFloat.binary_normalize FloatOps.prec FloatOps.emax z 0 false) in
  if is_infinity f then inl OverflowError else inr f.

(** [ticks_per_second = (bpm / 60.0) * PPQN; return 1.0 / ticks_per_second].
    The division by a zero [ticks_per_second] raises ZeroDivisionError. *)
Definition calculate_tick_interval (bpm : Z) : Raised + float :=
  match float_of_int bpm with
  | inl e => inl e
  | inr b =>
      match float_of_int PPQN with
      | inl e => inl e
      | inr ppqn =>
          let ticks_per_second := ((b / 60) * ppqn)%float in
          if (ticks_per_second =? 0)%float then inl ZeroDivisionError
          else inr (1 / ticks_per_second)%float
      end
  end.

(** The rational a finite binary64 value stands for. *)
Definition to_Q (f : float) : option Q :=
  match FloatOps.Prim2SF f with
  | SpecFloat.S754_zero _ => Some 0%Q
  | SpecFloat.S754_finite s m e =>
      let v := (inject_Z (Z.pos m) * 2 ^ e)%Q in
      Some (if s then (- v)%Q else v)
  | _ => None
  end.





End Binary64.

(** ** Reading traces *)

Definition calls (ev : list Event) : list LibCall :=
  flat_map (fun e => match e with Call c => [c] | _ => [] end) ev.

Definition sleeps (ev : list Event) : list Qc :=
  flat_map (fun e => match e with Sleep d => [d] | _ => [] end) ev.

Definition printed (ev : list Event) : list Msg :=
  flat_map (fun e => match e with Print m => [m] | _ => [] end) ev.

Definition is_send_clock (c : LibCall) : bool :=
  match c with midi_send_clock => true | _ => false end.

Definition is_send_stop (c : LibCall) : bool :=
  match c with midi_send_stop => true | _ => false end.

Definition is_cleanup (c : LibCall) : bool :=
  match c with midi_cleanup => true | _ => false end.

(** How many of the library calls of a trace satisfy [f]. *)
Definition count (f : LibCall -> bool) (ev : list Event) : nat :=
  length (filter f (calls ev)).

(** The tempi handed to [midi_set_tempo], in order. *)
Definition set_tempo_calls (ev : list Event) : list Z :=
  flat_map (fun e => match e with Call (midi_set_tempo b) => [b] | _ => [] end) ev.

(** The library calls the loop body can make. *)
Definition loop_call (c : LibCall) : bool :=
  match c with
  | midi_send_clock | midi_get_tick_count | midi_set_tempo _ => true
  | _ => false
  end.

(** [beat_count] is [tick_count] divided by [PPQN], rounded down. *)
Definition counters_ok (s : Ticker) : Prop :=
  beat_count s = tick_count s / PPQN.

(** Every cycle of the list begins at or after the change point pending for
    it, and its clock pulse is accepted. *)
Fixpoint overdue (next_change : Qc) (cs : list DebugAutomaticClock.Cycle) : Prop :=
  match cs with
  | [] => True
  | c :: cs' =>
      (next_change <= DebugAutomaticClock.now c)%Qc
      /\ 0 <= send_clock_ret (DebugAutomaticClock.pulse c)
      /\ overdue (next_change + DebugAutomaticClock.change_period)%Qc cs'
  end.

(** The [k] schedule entries starting at index [i], cyclically. *)
Definition entries_from (i k : nat) : list Z :=
  map (fun j => nth ((i + j) mod length DebugAutomaticClock.bpm_sequence)
                    DebugAutomaticClock.bpm_sequence 0)
      (seq 0 k).

(** ** Further readings of states and traces *)

(** A status line names beat [b >= 1] at tick [24 b]. *)
Definition status_line_ok (m : Msg) : Prop :=
  match m with
  | BeatStatus beat tick _ => 1 <= beat /\ tick = PPQN * beat
  | _ => True
  end.

Definition is_status_line (m : Msg) : bool :=
  match m with BeatStatus _ _ _ => true | _ => false end.

Definition refused (p : Pulse) : bool := send_clock_ret p <? 0.

(** The beat numbers of the status lines of a trace, in order. *)
Definition status_beats (ev : list Event) : list Z :=
  flat_map (fun e => match e with
                     | Print (BeatStatus beat _ _) => [beat]
                     | _ => []
                     end) ev.

(** The lines the loop bodies print. *)
Definition loop_msg (m : Msg) : bool :=
  match m with
  | BeatStatus _ _ _ | ErrorClock | WarnSetTempo _ | TempoChanged _ => true
  | _ => false
  end.

(** What the loop bodies may do: call the pulse, counter and tempo entry
    points, sleep a positive time, print their own lines. *)
Definition loop_event_ok (e : Event) : Prop :=
  match e with
  | Call c => loop_call c = true
  | Sleep d => (0 < d)%Qc
  | Print m => loop_msg m = true
  end.

(** The same world with another answer to the [midi_set_tempo(BPM)] call made
    before START. *)
Definition with_tempo_ret (r : Z) (e : DebugAutomaticClock.Env)
  : DebugAutomaticClock.Env :=
  DebugAutomaticClock.mkEnv
    (DebugAutomaticClock.lib_exists e) (DebugAutomaticClock.lib_loads e)
    (DebugAutomaticClock.init_ret e) r
    (DebugAutomaticClock.client_id e) (DebugAutomaticClock.port_id e)
    (DebugAutomaticClock.queue_id e) (DebugAutomaticClock.start_ret e)
    (DebugAutomaticClock.t_change e) (DebugAutomaticClock.t_start e)
    (DebugAutomaticClock.cycles e).

(** The tick interval of the state is the interval of its tempo, and the
    tempo is the starting one or an entry of the schedule. *)
Definition tempo_consistent (st : DebugAutomaticClock.State) : Prop :=
  DebugAutomaticClock.calculate_tick_interval (DebugAutomaticClock.current_bpm st)
  = Some (tick_interval (DebugAutomaticClock.ticker st))
  /\ In (DebugAutomaticClock.current_bpm st) (BPM :: DebugAutomaticClock.bpm_sequence).

(** * Properties *)

(** ** Order and arithmetic on rational seconds *)

Lemma Qcltb_lt (x y : Qc) : Qcltb x y = true <-> (x < y)%Qc.
Proof.
  unfold Qcltb. rewrite Qclt_alt.
  destruct (x ?= y)%Qc; split; congruence.
Qed.

Lemma Qcltb_nlt (x y : Qc) : Qcltb x y = false <-> (y <= x)%Qc.
Proof.
  split; intro H.
  - apply Qcnot_lt_le. intro L. apply Qcltb_lt in L. congruence.
  - destruct (Qcltb x y) eqn:E; trivial.
    apply Qcltb_lt in E. exfalso. exact (Qcle_not_lt _ _ H E).
Qed.

Lemma Qcleb_le (x y : Qc) : Qcleb x y = true <-> (x <= y)%Qc.
Proof.
  unfold Qcleb. rewrite Qcle_alt.
  destruct (x ?= y)%Qc; split; congruence.
Qed.

Lemma Qcleb_nle (x y : Qc) : Qcleb x y = false <-> (y < x)%Qc.
Proof.
  split; intro H.
  - apply Qcnot_le_lt. intro L. apply Qcleb_le in L. congruence.
  - destruct (Qcleb x y) eqn:E; trivial.
    apply Qcleb_le in E. exfalso. exact (Qclt_not_le _ _ H E).
Qed.

Lemma Qc_eq_bool_false (x y : Qc) : x <> y -> Qc_eq_bool x y = false.
Proof.
  intro N. destruct (Qc_eq_bool x y) eqn:E; trivial.
  apply Qc_eq_bool_correct in E. contradiction.
Qed.

(** The rational underneath each operation, up to [==]. *)
Lemma this_plus (x y : Qc) : (this (x + y)%Qc == this x + this y)%Q.
Proof. apply Qred_correct. Qed.

Lemma this_opp (x : Qc) : (this (- x)%Qc == - this x)%Q.
Proof. apply Qred_correct. Qed.

Lemma this_minus (x y : Qc) : (this (x - y)%Qc == this x - this y)%Q.
Proof. unfold Qcminus. rewrite this_plus, this_opp. reflexivity. Qed.

Lemma this_mult (x y : Qc) : (this (x * y)%Qc == this x * this y)%Q.
Proof. apply Qred_correct. Qed.

Lemma this_Z2Qc (z : Z) : (this (Z2Qc z) == inject_Z z)%Q.
Proof. apply Qred_correct. Qed.

(** Linear goals over [Qc] are sent to [Q], where [lra] decides them. *)
Ltac to_Q :=
  repeat match goal with
         | H : (_ <= _)%Qc |- _ => unfold Qcle in H
         | H : (_ < _)%Qc |- _ => unfold Qclt in H
         | H : @eq Qc _ _ |- _ => apply Qceq_alt in H; apply Qeq_alt in H
         | |- @eq Qc _ _ => apply Qc_is_canon
         end;
  unfold Qcle, Qclt;
  repeat match goal with
         | H : context [this (_ + _)%Qc] |- _ => rewrite this_plus in H
         | H : context [this (_ - _)%Qc] |- _ => rewrite this_minus in H
         | H : context [this (- _)%Qc] |- _ => rewrite this_opp in H
         | H : context [this (Z2Qc _)] |- _ => rewrite this_Z2Qc in H
         | |- context [this (_ + _)%Qc] => rewrite this_plus
         | |- context [this (_ - _)%Qc] => rewrite this_minus
         | |- context [this (- _)%Qc] => rewrite this_opp
         | |- context [this (Z2Qc _)] => rewrite this_Z2Qc
         end;
  change (this 0%Qc) with 0%Q in *.

Ltac qc_lra := to_Q; simpl inject_Z in *; lra.

(** Introduce hypotheses and split conjunctions, as deep as they go. *)
Ltac split_all :=
  repeat match goal with
         | |- _ /\ _ => split
         | |- _ -> _ => intro
         end.

Lemma Z2Qc_pos (z : Z) : 0 < z -> (0 < Z2Qc z)%Qc.
Proof.
  intro H. unfold Qclt. rewrite this_Z2Qc.
  change (this 0%Qc) with (inject_Z 0). rewrite <- Zlt_Qlt. exact H.
Qed.


Lemma Qcmult_pos (x y : Qc) : (0 < x)%Qc -> (0 < y)%Qc -> (0 < x * y)%Qc.
Proof.
  unfold Qclt. intros Hx Hy. rewrite this_mult.
  change (this 0%Qc) with 0%Q in *. now apply Qmult_lt_0_compat.
Qed.

Lemma Qcinv_pos (x : Qc) : (0 < x)%Qc -> (0 < / x)%Qc.
Proof.
  unfold Qclt, Qcinv. intro Hx. simpl this. rewrite Qred_correct.
  change (Qred 0) with 0%Q in *. now apply Qinv_lt_0_compat.
Qed.

Lemma Qcdiv_pos (x y : Qc) : (0 < x)%Qc -> (0 < y)%Qc -> (0 < x / y)%Qc.
Proof. intros. apply Qcmult_pos; [ | apply Qcinv_pos ]; assumption. Qed.

(** ** The tick interval *)

Lemma ticks_per_second_pos (bpm : Z) :
  0 < bpm -> (0 < Z2Qc bpm / Z2Qc 60 * Z2Qc PPQN)%Qc.
Proof.
  intro H. apply Qcmult_pos; [ apply Qcdiv_pos | ]; now apply Z2Qc_pos.
Qed.

Lemma tick_interval_defined (bpm : Z) :
  0 < bpm ->
  DebugAutomaticClock.calculate_tick_interval bpm
    = Some (1 / (Z2Qc bpm / Z2Qc 60 * Z2Qc PPQN))%Qc.
Proof.
  intro H. unfold DebugAutomaticClock.calculate_tick_interval.
  rewrite Qc_eq_bool_false; [ reflexivity | ].
  apply not_eq_sym, Qclt_not_eq, ticks_per_second_pos, H.
Qed.

Lemma bpm_sequence_pos (i : nat) (b : Z) :
  nth_error DebugAutomaticClock.bpm_sequence i = Some b -> 0 < b.
Proof.
  intro H. apply nth_error_In in H. simpl in H.
  repeat (destruct H as [H | H]; [ lia | ]). contradiction.
Qed.

(** ** The tick interval as the scripts compute it *)






(** ** Reading traces piecewise *)

Lemma calls_app (a b : list Event) : calls (a ++ b) = calls a ++ calls b.
Proof. apply flat_map_app. Qed.

Lemma sleeps_app (a b : list Event) : sleeps (a ++ b) = sleeps a ++ sleeps b.
Proof. apply flat_map_app. Qed.

Lemma printed_app (a b : list Event) : printed (a ++ b) = printed a ++ printed b.
Proof. apply flat_map_app. Qed.

Lemma set_tempo_calls_app (a b : list Event) :
  set_tempo_calls (a ++ b) = set_tempo_calls a ++ set_tempo_calls b.
Proof. apply flat_map_app. Qed.

Lemma count_app (f : LibCall -> bool) (a b : list Event) :
  count f (a ++ b) = (count f a + count f b)%nat.
Proof. unfold count. now rewrite calls_app, filter_app, length_app. Qed.

(** A trace made of loop calls only holds no call outside [loop_call]. *)
Lemma count_loop_calls (f : LibCall -> bool) (ev : list Event) :
  (forall c, f c = true -> loop_call c = false) ->
  forallb loop_call (calls ev) = true ->
  count f ev = 0%nat.
Proof.
  intros Hf. unfold count. induction (calls ev) as [ | c l IH ]; simpl; trivial.
  intro H. apply andb_prop in H. destruct H as [Hc Hl].
  destruct (f c) eqn:E; [ | auto ].
  apply Hf in E. congruence.
Qed.

Lemma forallb_calls_app (a b : list Event) :
  forallb loop_call (calls (a ++ b))
  = forallb loop_call (calls a) && forallb loop_call (calls b).
Proof. rewrite calls_app. apply forallb_app. Qed.

(** ** The pulse cycle *)

Lemma count_tick_spec (p : Pulse) (s : Ticker) :
  let '(s', ev) := count_tick p s in
  tick_interval s' = tick_interval s
  /\ next_tick_time s' = next_tick_time s
  /\ tick_count s' = tick_count s + 1
  /\ (counters_ok s -> counters_ok s')
  /\ sleeps ev = []
  /\ count is_send_clock ev = 0%nat
  /\ forallb loop_call (calls ev) = true
  /\ set_tempo_calls ev = []
  /\ printed ev
     = (if tick_count s' mod PPQN =? 0
        then [BeatStatus (beat_count s') (tick_count s') (queue_tick p)]
        else []).
Proof.
  unfold count_tick, counters_ok.
  destruct (Z.eqb_spec ((tick_count s + 1) mod PPQN) 0) as [E | E]; simpl.
  - rewrite E. simpl. repeat split; trivial.
    intro H. rewrite H. unfold PPQN in *.
    Z.to_euclidean_division_equations. lia.
  - apply Z.eqb_neq in E as E'. rewrite E'. repeat split; trivial.
    intro H. rewrite H. unfold PPQN in *.
    Z.to_euclidean_division_equations. lia.
Qed.

Lemma wait_next_tick_spec (p : Pulse) (s : Ticker) :
  let '(s', ev) := wait_next_tick p s in
  tick_interval s' = tick_interval s
  /\ tick_count s' = tick_count s
  /\ beat_count s' = beat_count s
  /\ calls ev = []
  /\ printed ev = []
  /\ set_tempo_calls ev = [].
Proof.
  unfold wait_next_tick.
  destruct (Qcltb 0 _); [ | destruct (Qcltb _ _) ]; simpl; repeat split.
Qed.

(** The three cases of the wait, by the sign and size of the slack. *)
Lemma wait_next_tick_cases (p : Pulse) (s : Ticker) :
  let deadline := (next_tick_time s + tick_interval s)%Qc in
  let slack := (deadline - now_wait p)%Qc in
  let '(s', ev) := wait_next_tick p s in
  ((0 < slack)%Qc -> sleeps ev = [slack] /\ next_tick_time s' = deadline)
  /\ ((slack <= 0)%Qc -> sleeps ev = [])
  /\ ((0 <= tick_interval s)%Qc -> (slack < - tick_interval s)%Qc ->
      next_tick_time s' = now_resync p)
  /\ ((slack <= 0)%Qc -> (- tick_interval s <= slack)%Qc ->
      next_tick_time s' = deadline).
Proof.
  unfold wait_next_tick.
  destruct (Qcltb 0 _) eqn:E1;
    [ apply Qcltb_lt in E1
    | apply Qcltb_nlt in E1;
      destruct (Qcltb _ (- _)%Qc) eqn:E2;
      [ apply Qcltb_lt in E2 | apply Qcltb_nlt in E2 ] ];
    simpl; split_all; trivial; exfalso; qc_lra.
Qed.

Lemma pulse_cycle_break (p : Pulse) (s : Ticker) :
  send_clock_ret p < 0 ->
  pulse_cycle p s = (Break, s, [Call midi_send_clock; Print ErrorClock]).
Proof.
  intro H. unfold pulse_cycle.
  destruct (Z.ltb_spec (send_clock_ret p) 0); [ reflexivity | lia ].
Qed.

Lemma pulse_cycle_continue (p : Pulse) (s : Ticker) :
  0 <= send_clock_ret p ->
  pulse_cycle p s
  = (Continue,
     fst (wait_next_tick p (fst (count_tick p s))),
     Call midi_send_clock
       :: snd (count_tick p s) ++ snd (wait_next_tick p (fst (count_tick p s)))).
Proof.
  intro H. unfold pulse_cycle.
  destruct (Z.ltb_spec (send_clock_ret p) 0); [ lia | ].
  destruct (count_tick p s) as [s1 ev1]. simpl fst; simpl snd.
  destruct (wait_next_tick p s1) as [s2 ev2]. reflexivity.
Qed.

(** What every pulse cycle does, accepted or not. *)
Lemma pulse_cycle_spec (p : Pulse) (s : Ticker) :
  let '(flow, s', ev) := pulse_cycle p s in
  flow <> Raise
  /\ tick_interval s' = tick_interval s
  /\ (counters_ok s -> counters_ok s')
  /\ count is_send_clock ev = 1%nat
  /\ forallb loop_call (calls ev) = true
  /\ set_tempo_calls ev = []
  /\ (0 <= send_clock_ret p ->
      flow = Continue /\ tick_count s' = tick_count s + 1)
  /\ (send_clock_ret p < 0 -> flow = Break /\ s' = s).
Proof.
  destruct (Z.ltb_spec (send_clock_ret p) 0) as [L | L].
  - rewrite (pulse_cycle_break p s L). split_all; trivial; try discriminate; lia.
  - rewrite (pulse_cycle_continue p s L).
    pose proof (count_tick_spec p s) as C.
    destruct (count_tick p s) as [s1 ev1]. simpl fst; simpl snd.
    pose proof (wait_next_tick_spec p s1) as W.
    destruct (wait_next_tick p s1) as [s2 ev2]. simpl fst; simpl snd.
    destruct C as (C1 & C2 & C3 & C4 & C5 & C6 & C7 & C8 & C9).
    destruct W as (W1 & W2 & W3 & W4 & W5 & W6).
    split_all; trivial; try discriminate; try lia; try congruence.
    + unfold counters_ok in *. rewrite W2, W3. auto.
    + change (Call midi_send_clock :: ev1 ++ ev2)
        with ([Call midi_send_clock] ++ ev1 ++ ev2).
      rewrite !count_app, C6. unfold count at 2. rewrite W4. reflexivity.
    + change (Call midi_send_clock :: ev1 ++ ev2)
        with ([Call midi_send_clock] ++ ev1 ++ ev2).
      rewrite !forallb_calls_app, C7, W4. reflexivity.
    + change (Call midi_send_clock :: ev1 ++ ev2)
        with ([Call midi_send_clock] ++ ev1 ++ ev2).
      rewrite !set_tempo_calls_app, C8, W6. reflexivity.
Qed.

(** ** The tempo-change check *)

Lemma seq_index_next (i : nat) :
  ((i + 1) mod length DebugAutomaticClock.bpm_sequence
   < length DebugAutomaticClock.bpm_sequence)%nat.
Proof. apply Nat.mod_upper_bound. discriminate. Qed.

Lemma tick_interval_value_pos (bpm : Z) :
  0 < bpm -> (0 < 1 / (Z2Qc bpm / Z2Qc 60 * Z2Qc PPQN))%Qc.
Proof.
  intro H. apply Qcdiv_pos; [ reflexivity | apply ticks_per_second_pos, H ].
Qed.

(** With the index inside the list the check raises nothing and touches
    neither counter. *)
Lemma tempo_change_check_spec
      (c : DebugAutomaticClock.Cycle) (st : DebugAutomaticClock.State) :
  (DebugAutomaticClock.seq_index st
   < length DebugAutomaticClock.bpm_sequence)%nat ->
  let '(flow, st', ev) := DebugAutomaticClock.tempo_change_check c st in
  flow = Continue
  /\ (DebugAutomaticClock.seq_index st'
      < length DebugAutomaticClock.bpm_sequence)%nat
  /\ tick_count (DebugAutomaticClock.ticker st')
     = tick_count (DebugAutomaticClock.ticker st)
  /\ beat_count (DebugAutomaticClock.ticker st')
     = beat_count (DebugAutomaticClock.ticker st)
  /\ ((0 < tick_interval (DebugAutomaticClock.ticker st))%Qc ->
      (0 < tick_interval (DebugAutomaticClock.ticker st'))%Qc)
  /\ count is_send_clock ev = 0%nat
  /\ forallb loop_call (calls ev) = true
  /\ sleeps ev = []
  /\ (length (set_tempo_calls ev) <= 1)%nat.
Proof.
  intro Hi. unfold DebugAutomaticClock.tempo_change_check.
  destruct (Qcleb _ _).
  - destruct (nth_error _ _) as [new_bpm | ] eqn:E.
    + pose proof (bpm_sequence_pos _ _ E) as Hpos.
      destruct (_ <? 0).
      * simpl. pose proof (seq_index_next (DebugAutomaticClock.seq_index st)).
        split_all; trivial; lia.
      * rewrite (tick_interval_defined new_bpm Hpos). simpl.
        pose proof (seq_index_next (DebugAutomaticClock.seq_index st)).
        pose proof (tick_interval_value_pos new_bpm Hpos).
        split_all; trivial; lia.
    + apply nth_error_None in E. lia.
  - simpl. split_all; trivial; lia.
Qed.

(** The events of the check, whatever the state. *)
Lemma tempo_change_check_events
      (c : DebugAutomaticClock.Cycle) (st : DebugAutomaticClock.State) :
  let ev := snd (DebugAutomaticClock.tempo_change_check c st) in
  count is_send_clock ev = 0%nat
  /\ forallb loop_call (calls ev) = true
  /\ sleeps ev = []
  /\ (length (set_tempo_calls ev) <= 1)%nat.
Proof.
  unfold DebugAutomaticClock.tempo_change_check.
  destruct (Qcleb _ _); [ | simpl; split_all; trivial; lia ].
  destruct (nth_error _ _) as [new_bpm | ]; [ | simpl; split_all; trivial; lia ].
  destruct (_ <? 0); [ simpl; split_all; trivial; lia | ].
  destruct (DebugAutomaticClock.calculate_tick_interval new_bpm);
    simpl; split_all; trivial; lia.
Qed.

(** ** One pass through the loop body of debugAutomaticClock.py *)

Lemma cycle_unfold (c : DebugAutomaticClock.Cycle) (st : DebugAutomaticClock.State) :
  forall st1 ev1,
    DebugAutomaticClock.tempo_change_check c st = (Continue, st1, ev1) ->
    DebugAutomaticClock.cycle c st
    = (fst (fst (pulse_cycle (DebugAutomaticClock.pulse c)
                             (DebugAutomaticClock.ticker st1))),
       DebugAutomaticClock.mkState
         (DebugAutomaticClock.current_bpm st1)
         (DebugAutomaticClock.seq_index st1)
         (DebugAutomaticClock.next_change_time st1)
         (snd (fst (pulse_cycle (DebugAutomaticClock.pulse c)
                                (DebugAutomaticClock.ticker st1)))),
       ev1 ++ snd (pulse_cycle (DebugAutomaticClock.pulse c)
                               (DebugAutomaticClock.ticker st1))).
Proof.
  intros st1 ev1 E. unfold DebugAutomaticClock.cycle. rewrite E.
  destruct (pulse_cycle _ _) as [[flow tk] ev2]. reflexivity.
Qed.

Lemma cycle_at_most_one_pulse
      (c : DebugAutomaticClock.Cycle) (st : DebugAutomaticClock.State) :
  (count is_send_clock (snd (DebugAutomaticClock.cycle c st)) <= 1)%nat
  /\ (length (set_tempo_calls (snd (DebugAutomaticClock.cycle c st))) <= 1)%nat.
Proof.
  pose proof (tempo_change_check_events c st) as T.
  destruct (DebugAutomaticClock.tempo_change_check c st) as [[flow st1] ev1] eqn:E.
  simpl in T. destruct T as (T1 & T2 & T3 & T4).
  destruct flow.
  - rewrite (cycle_unfold c st st1 ev1 E).
    pose proof (pulse_cycle_spec (DebugAutomaticClock.pulse c)
                                 (DebugAutomaticClock.ticker st1)) as P.
    destruct (pulse_cycle _ _) as [[flow tk] ev2].
    destruct P as (_ & _ & _ & P1 & _ & P2 & _).
    simpl snd. rewrite count_app, set_tempo_calls_app, length_app, P1, P2, T1.
    simpl. lia.
  - unfold DebugAutomaticClock.cycle. rewrite E. simpl. lia.
  - unfold DebugAutomaticClock.cycle. rewrite E. simpl. lia.
Qed.

Lemma cycle_spec (c : DebugAutomaticClock.Cycle) (st : DebugAutomaticClock.State) :
  (DebugAutomaticClock.seq_index st
   < length DebugAutomaticClock.bpm_sequence)%nat ->
  let '(flow, st', ev) := DebugAutomaticClock.cycle c st in
  flow <> Raise
  /\ (DebugAutomaticClock.seq_index st'
      < length DebugAutomaticClock.bpm_sequence)%nat
  /\ (counters_ok (DebugAutomaticClock.ticker st) ->
      counters_ok (DebugAutomaticClock.ticker st'))
  /\ ((0 < tick_interval (DebugAutomaticClock.ticker st))%Qc ->
      (0 < tick_interval (DebugAutomaticClock.ticker st'))%Qc)
  /\ forallb loop_call (calls ev) = true
  /\ (0 <= send_clock_ret (DebugAutomaticClock.pulse c) ->
      flow = Continue
      /\ tick_count (DebugAutomaticClock.ticker st')
         = tick_count (DebugAutomaticClock.ticker st) + 1)
  /\ (send_clock_ret (DebugAutomaticClock.pulse c) < 0 ->
      flow = Break
      /\ tick_count (DebugAutomaticClock.ticker st')
         = tick_count (DebugAutomaticClock.ticker st)
      /\ beat_count (DebugAutomaticClock.ticker st')
         = beat_count (DebugAutomaticClock.ticker st)).
Proof.
  intro Hi.
  pose proof (tempo_change_check_spec c st Hi) as T.
  destruct (DebugAutomaticClock.tempo_change_check c st) as [[flow st1] ev1] eqn:E.
  destruct T as (-> & T1 & T2 & T3 & T4 & T5 & T6 & T7 & T8).
  rewrite (cycle_unfold c st st1 ev1 E).
  pose proof (pulse_cycle_spec (DebugAutomaticClock.pulse c)
                               (DebugAutomaticClock.ticker st1)) as P.
  destruct (pulse_cycle _ _) as [[flow tk] ev2]. simpl fst; simpl snd.
  destruct P as (P1 & P2 & P3 & P4 & P5 & P6 & P7 & P8).
  unfold counters_ok in *. simpl.
  split_all; trivial.
  - apply P3. congruence.
  - rewrite P2. auto.
  - rewrite forallb_calls_app, T6, P5. reflexivity.
  - now apply P7.
  - destruct (P7 ltac:(assumption)) as [_ ->]. lia.
  - now apply P8.
  - destruct (P8 ltac:(assumption)) as [_ ->]. assumption.
  - destruct (P8 ltac:(assumption)) as [_ ->]. assumption.
Qed.

(** ** The loops *)

Lemma clock_loop_spec (cs : list Pulse) :
  forall s,
    let '(s', ev) := Clock.loop cs s in
    tick_interval s' = tick_interval s
    /\ (counters_ok s -> counters_ok s')
    /\ forallb loop_call (calls ev) = true
    /\ (Forall (fun p => 0 <= send_clock_ret p) cs ->
        tick_count s' = tick_count s + Z.of_nat (length cs)).
Proof.
  induction cs as [ | p cs IH ]; intro s.
  - simpl. split_all; trivial. lia.
  - cbn [Clock.loop].
    pose proof (pulse_cycle_spec p s) as P.
    destruct (pulse_cycle p s) as [[flow s1] ev1].
    destruct P as (P1 & P2 & P3 & P4 & P5 & P6 & P7 & P8).
    destruct flow; [ | | congruence ].
    + specialize (IH s1). destruct (Clock.loop cs s1) as [s2 ev2].
      destruct IH as (I1 & I2 & I3 & I4).
      split_all; try congruence; auto.
      * rewrite forallb_calls_app, P5, I3. reflexivity.
      * match goal with H : Forall _ (_ :: _) |- _ => inversion H; subst end.
        rewrite I4 by assumption.
        destruct P7 as [_ ->]; [ assumption | ].
        rewrite length_cons. lia.
    + split_all; auto.
      match goal with H : Forall _ (_ :: _) |- _ => inversion H; subst end.
      destruct (Z.ltb_spec (send_clock_ret p) 0) as [L | L]; [ lia | ].
      destruct (P7 L) as [D _]. discriminate.
Qed.

Lemma debug_loop_spec (cs : list DebugAutomaticClock.Cycle) :
  forall st,
    (DebugAutomaticClock.seq_index st
     < length DebugAutomaticClock.bpm_sequence)%nat ->
    let '(st', ev) := DebugAutomaticClock.loop cs st in
    (counters_ok (DebugAutomaticClock.ticker st) ->
     counters_ok (DebugAutomaticClock.ticker st'))
    /\ ((0 < tick_interval (DebugAutomaticClock.ticker st))%Qc ->
        (0 < tick_interval (DebugAutomaticClock.ticker st'))%Qc)
    /\ forallb loop_call (calls ev) = true
    /\ (Forall (fun c => 0 <= send_clock_ret (DebugAutomaticClock.pulse c)) cs ->
        tick_count (DebugAutomaticClock.ticker st')
        = tick_count (DebugAutomaticClock.ticker st) + Z.of_nat (length cs)).
Proof.
  induction cs as [ | c cs IH ]; intros st Hi.
  - simpl. split_all; trivial. lia.
  - cbn [DebugAutomaticClock.loop].
    pose proof (cycle_spec c st Hi) as P.
    destruct (DebugAutomaticClock.cycle c st) as [[flow st1] ev1].
    destruct P as (P1 & P2 & P3 & P4 & P5 & P6 & P7).
    destruct flow; [ | | congruence ].
    + specialize (IH st1 P2).
      destruct (DebugAutomaticClock.loop cs st1) as [st2 ev2].
      destruct IH as (I1 & I2 & I3 & I4).
      split_all; auto.
      * rewrite forallb_calls_app, P5, I3. reflexivity.
      * match goal with H : Forall _ (_ :: _) |- _ => inversion H; subst end.
        rewrite I4 by assumption.
        destruct P6 as [_ ->]; [ assumption | ].
        rewrite length_cons. lia.
    + split_all; auto.
      match goal with H : Forall _ (_ :: _) |- _ => inversion H; subst end.
      destruct (Z.ltb_spec (send_clock_ret (DebugAutomaticClock.pulse c)) 0)
        as [L | L]; [ lia | ].
      destruct (P6 L) as [D _]. discriminate.
Qed.

(** The wait of an accepted pulse cycle, case by case. *)
Lemma pulse_cycle_wait (p : Pulse) (s : Ticker) :
  0 <= send_clock_ret p ->
  let deadline := (next_tick_time s + tick_interval s)%Qc in
  let slack := (deadline - now_wait p)%Qc in
  let '(flow, s', ev) := pulse_cycle p s in
  flow = Continue
  /\ ((0 < slack)%Qc -> sleeps ev = [slack] /\ next_tick_time s' = deadline)
  /\ ((slack <= 0)%Qc -> sleeps ev = [])
  /\ ((0 <= tick_interval s)%Qc -> (slack < - tick_interval s)%Qc ->
      next_tick_time s' = now_resync p)
  /\ ((slack <= 0)%Qc -> (- tick_interval s <= slack)%Qc ->
      next_tick_time s' = deadline).
Proof.
  intros Hok deadline slack.
  rewrite (pulse_cycle_continue p s Hok).
  pose proof (count_tick_spec p s) as C.
  destruct (count_tick p s) as [s1 ev1]. simpl fst; simpl snd.
  destruct C as (C1 & C2 & _ & _ & C5 & _).
  pose proof (wait_next_tick_cases p s1) as W.
  destruct (wait_next_tick p s1) as [s2 ev2]. simpl fst; simpl snd.
  rewrite C1, C2 in W. fold deadline in W. fold slack in W.
  assert (S : sleeps (Call midi_send_clock :: ev1 ++ ev2) = sleeps ev2).
  { change (Call midi_send_clock :: ev1 ++ ev2)
      with ([Call midi_send_clock] ++ ev1 ++ ev2).
    rewrite !sleeps_app, C5. reflexivity. }
  rewrite S. split; [ reflexivity | exact W ].
Qed.

(** C6.  In every pass through the loop body whose pulse is accepted and whose
    tick interval is positive, the deadline is advanced by the tick interval
    and [slack] is the deadline minus the clock reading.  If [slack > 0] the
    thread sleeps exactly [slack] and keeps the deadline; if [slack <= 0]
    nothing is slept and the loop goes on to its next pass; if
    [slack < - tick_interval] the deadline becomes the fresh clock reading,
    otherwise it is kept.  The pass sends the clock pulse once, and a pass of
    the tempo-varying loop sends it at most once, so a late pass is never
    followed by compensating pulses inside the same pass. *)
Theorem deadline_wait_and_resync (p : Pulse) (s : Ticker) :
  0 <= send_clock_ret p ->
  (0 < tick_interval s)%Qc ->
  let deadline := (next_tick_time s + tick_interval s)%Qc in
  let slack := (deadline - now_wait p)%Qc in
  let '(flow, s', ev) := pulse_cycle p s in
  flow = Continue
  /\ ((0 < slack)%Qc -> sleeps ev = [slack] /\ next_tick_time s' = deadline)
  /\ ((slack <= 0)%Qc -> sleeps ev = [])
  /\ ((slack < - tick_interval s)%Qc -> next_tick_time s' = now_resync p)
  /\ ((- tick_interval s <= slack)%Qc -> next_tick_time s' = deadline)
  /\ count is_send_clock ev = 1%nat
  /\ (forall c st,
        (count is_send_clock (snd (DebugAutomaticClock.cycle c st)) <= 1)%nat).
Proof.
  intros Hok Hpos deadline slack.
  pose proof (pulse_cycle_spec p s) as One.
  pose proof (pulse_cycle_wait p s Hok) as W.
  fold deadline in W. fold slack in W.
  destruct (pulse_cycle p s) as [[flow s'] ev].
  destruct One as (_ & _ & _ & One & _).
  destruct W as (W0 & W1 & W2 & W3 & W4).
  split_all; trivial.
  - now apply W1.
  - now apply W1.
  - now apply W2.
  - apply W3; [ apply Qclt_le_weak | ]; assumption.
  - destruct (Qclt_le_dec 0 slack) as [L | L]; [ now apply W1 | now apply W4 ].
  - apply cycle_at_most_one_pulse.
Qed.

Lemma deadline_wait_and_resync_witness :
  let p := mkPulse 0 0 (Z2Qc 1) (Z2Qc 2) in
  let s := mkTicker (Z2Qc 1) (Z2Qc 3) 0 0 in
  sleeps (snd (pulse_cycle p s)) = [(Z2Qc 3 + Z2Qc 1 - Z2Qc 1)%Qc].
Proof.
  intros p s.
  pose proof (deadline_wait_and_resync p s) as H.
  destruct (pulse_cycle p s) as [[flow s'] ev].
  apply H; [ simpl; lia | reflexivity | reflexivity ].
Defined.

(** C7.  In both scripts, a loop that has completed [N] passes, none of them
    with a refused pulse, leaves [tick_count = N]; whenever the loop is left,
    after any number of passes and however it ended, [beat_count] is
    [tick_count] divided by 24 rounded down; and a pass whose pulse is
    accepted prints the status line (beat number, cumulative pulse count, the
    transport's own counter) exactly when the new [tick_count] is a multiple
    of 24, and prints nothing otherwise. *)
Theorem pulse_and_beat_counters :
  (forall cs interval t,
      let s := fst (Clock.loop cs (Clock.init_ticker interval t)) in
      (Forall (fun p => 0 <= send_clock_ret p) cs ->
       tick_count s = Z.of_nat (length cs))
      /\ beat_count s = tick_count s / 24)
  /\ (forall cs interval tc ts,
      let s := DebugAutomaticClock.ticker
                 (fst (DebugAutomaticClock.loop
                         cs (DebugAutomaticClock.init_state interval tc ts))) in
      (Forall (fun c => 0 <= send_clock_ret (DebugAutomaticClock.pulse c)) cs ->
       tick_count s = Z.of_nat (length cs))
      /\ beat_count s = tick_count s / 24)
  /\ (forall p s,
      0 <= send_clock_ret p ->
      let '(_, s', ev) := pulse_cycle p s in
      printed ev
      = if tick_count s' mod 24 =? 0
        then [BeatStatus (beat_count s') (tick_count s') (queue_tick p)]
        else []).
Proof.
  split; [ | split ].
  - intros cs interval t.
    pose proof (clock_loop_spec cs (Clock.init_ticker interval t)) as L.
    destruct (Clock.loop cs _) as [s ev]. simpl.
    destruct L as (_ & L2 & _ & L4). split.
    + intro H. rewrite (L4 H). reflexivity.
    + apply L2. reflexivity.
  - intros cs interval tc ts.
    assert (Hi : (DebugAutomaticClock.seq_index
                    (DebugAutomaticClock.init_state interval tc ts)
                  < length DebugAutomaticClock.bpm_sequence)%nat)
      by (simpl; lia).
    pose proof (debug_loop_spec
                  cs (DebugAutomaticClock.init_state interval tc ts) Hi) as L.
    destruct (DebugAutomaticClock.loop cs _) as [st ev]. simpl.
    destruct L as (L1 & _ & _ & L4). split.
    + intro H. rewrite (L4 H). reflexivity.
    + apply L1. reflexivity.
  - intros p s Hok. rewrite (pulse_cycle_continue p s Hok).
    pose proof (count_tick_spec p s) as C.
    destruct (count_tick p s) as [s1 ev1]. simpl fst; simpl snd.
    destruct C as (_ & _ & _ & _ & _ & _ & _ & _ & C9).
    pose proof (wait_next_tick_spec p s1) as W.
    destruct (wait_next_tick p s1) as [s2 ev2]. simpl fst; simpl snd.
    destruct W as (_ & W2 & W3 & _ & W5 & _).
    change (Call midi_send_clock :: ev1 ++ ev2)
      with ([Call midi_send_clock] ++ ev1 ++ ev2).
    rewrite !printed_app, W5, app_nil_r, W2, W3. exact C9.
Qed.

Lemma pulse_and_beat_counters_witness :
  let cs := repeat (mkPulse 0 7 0%Qc 0%Qc) 48 in
  Forall (fun p => 0 <= send_clock_ret p) cs
  /\ tick_count (fst (Clock.loop cs (Clock.init_ticker (Z2Qc 1) 0%Qc))) = 48
  /\ beat_count (fst (Clock.loop cs (Clock.init_ticker (Z2Qc 1) 0%Qc))) = 2.
Proof.
  intro cs.
  assert (F : Forall (fun p => 0 <= send_clock_ret p) cs)
    by (apply Forall_forall; intros p Hp; apply repeat_spec in Hp;
        subst p; simpl; lia).
  split; [ exact F | ].
  destruct pulse_and_beat_counters as (H & _).
  destruct (H cs (Z2Qc 1) 0%Qc) as [Ht Hb].
  split; [ exact (Ht F) | rewrite Hb, (Ht F); reflexivity ].
Defined.

(** ** A refused pulse ends the loop *)

Lemma clock_loop_refused (pre : list Pulse) (p : Pulse) (post : list Pulse) :
  Forall (fun p => 0 <= send_clock_ret p) pre ->
  send_clock_ret p < 0 ->
  forall s,
    Clock.loop (pre ++ p :: post) s
    = (fst (Clock.loop pre s),
       snd (Clock.loop pre s) ++ [Call midi_send_clock; Print ErrorClock])
    /\ count is_send_clock (snd (Clock.loop pre s)) = length pre.
Proof.
  intros Hpre Hp. induction Hpre as [ | a pre Ha Hpre IH ]; intro s.
  - simpl. rewrite (pulse_cycle_break p s Hp). split; reflexivity.
  - cbn [app Clock.loop].
    pose proof (pulse_cycle_spec a s) as P.
    rewrite (pulse_cycle_continue a s Ha) in *.
    destruct P as (_ & _ & _ & P4 & _).
    set (s1 := fst (wait_next_tick a (fst (count_tick a s)))) in *.
    destruct (IH s1) as [E C]. rewrite E.
    destruct (Clock.loop pre s1) as [s2 ev2]. cbn [fst snd] in *.
    split.
    + now rewrite <- !app_assoc.
    + rewrite count_app, P4, C. reflexivity.
Qed.

Lemma debug_loop_refused
      (pre : list DebugAutomaticClock.Cycle) (c : DebugAutomaticClock.Cycle)
      (post : list DebugAutomaticClock.Cycle) :
  Forall (fun c => 0 <= send_clock_ret (DebugAutomaticClock.pulse c)) pre ->
  send_clock_ret (DebugAutomaticClock.pulse c) < 0 ->
  forall st,
    (DebugAutomaticClock.seq_index st
     < length DebugAutomaticClock.bpm_sequence)%nat ->
    let st1 := fst (DebugAutomaticClock.loop pre st) in
    let ev1 := snd (DebugAutomaticClock.loop pre st) in
    let check := DebugAutomaticClock.tempo_change_check c st1 in
    DebugAutomaticClock.loop (pre ++ c :: post) st
    = (snd (fst check),
       ev1 ++ snd check ++ [Call midi_send_clock; Print ErrorClock])
    /\ count is_send_clock ev1 = length pre
    /\ (DebugAutomaticClock.seq_index st1
        < length DebugAutomaticClock.bpm_sequence)%nat.
Proof.
  intros Hpre Hc. induction Hpre as [ | a pre Ha Hpre IH ]; intros st Hi.
  - cbn [app DebugAutomaticClock.loop fst snd].
    pose proof (tempo_change_check_spec c st Hi) as T.
    destruct (DebugAutomaticClock.tempo_change_check c st)
      as [[flow st1] ev1] eqn:E.
    destruct T as (-> & _).
    rewrite (cycle_unfold c st st1 ev1 E).
    rewrite (pulse_cycle_break _ _ Hc). simpl.
    destruct st1; simpl. repeat split. assumption.
  - cbn [app DebugAutomaticClock.loop].
    pose proof (cycle_spec a st Hi) as P.
    pose proof (tempo_change_check_spec a st Hi) as T.
    pose proof (tempo_change_check_events a st) as V.
    destruct (DebugAutomaticClock.tempo_change_check a st)
      as [[flow st1] ev1] eqn:E.
    destruct T as (-> & _). simpl in V. destruct V as (V1 & _).
    rewrite (cycle_unfold a st st1 ev1 E) in *.
    pose proof (pulse_cycle_spec (DebugAutomaticClock.pulse a)
                                 (DebugAutomaticClock.ticker st1)) as Q.
    rewrite (pulse_cycle_continue _ (DebugAutomaticClock.ticker st1) Ha) in *.
    cbn [fst snd] in *.
    destruct P as (_ & P2 & _). destruct Q as (_ & _ & _ & Q4 & _).
    match goal with
    | |- context [DebugAutomaticClock.loop pre ?x] => set (st2 := x) in *
    end.
    destruct (IH st2 P2) as (R & C & I). rewrite R.
    destruct (DebugAutomaticClock.loop pre st2) as [st3 ev3].
    cbn [fst snd] in *. repeat split.
    + now rewrite <- !app_assoc.
    + rewrite !count_app, V1, Q4, C. reflexivity.
    + assumption.
Qed.

(** ** Whole runs *)

Lemma filter_loop_calls (f : LibCall -> bool) (l : list LibCall) :
  (forall c, f c = true -> loop_call c = false) ->
  forallb loop_call l = true ->
  filter f l = [].
Proof.
  intros Hf. induction l as [ | c l IH ]; simpl; trivial.
  intro H. apply andb_prop in H. destruct H as [Hc Hl].
  destruct (f c) eqn:E; [ | auto ].
  apply Hf in E. congruence.
Qed.

(** The tick interval both scripts start with. *)
Lemma initial_tick_interval :
  Clock.calculate_tick_interval
  = Some (1 / (Z2Qc BPM / Z2Qc 60 * Z2Qc PPQN))%Qc
  /\ DebugAutomaticClock.calculate_tick_interval BPM
     = Some (1 / (Z2Qc BPM / Z2Qc 60 * Z2Qc PPQN))%Qc.
Proof. split; apply (tick_interval_defined BPM); reflexivity. Qed.

(** A run of clock.py that got past START: the loop, then the shutdown. *)
Lemma clock_main_running (e : Clock.Env) :
  Clock.lib_exists e = true -> Clock.lib_loads e = true ->
  0 <= Clock.init_ret e -> 0 <= Clock.start_ret e ->
  let interval := (1 / (Z2Qc BPM / Z2Qc 60 * Z2Qc PPQN))%Qc in
  let r := Clock.loop (Clock.cycles e) (Clock.init_ticker interval (Clock.t_start e)) in
  Clock.main e
  = (Returned 0,
     Clock.startup e ++ Clock.announce e ++ [Print (TickIntervalInfo interval)]
       ++ snd r ++ snd (shutdown (fst r))).
Proof.
  intros He Hl Hi Hs interval r. unfold Clock.main.
  rewrite He, Hl. cbn [negb].
  destruct (Z.ltb_spec (Clock.init_ret e) 0); [ lia | ].
  destruct (Z.ltb_spec (Clock.start_ret e) 0); [ lia | ].
  rewrite (proj1 initial_tick_interval). fold interval. fold r.
  destruct r as [s ev]. reflexivity.
Qed.

Lemma clock_main_start_refused (e : Clock.Env) :
  Clock.lib_exists e = true -> Clock.lib_loads e = true ->
  0 <= Clock.init_ret e -> Clock.start_ret e < 0 ->
  Clock.main e
  = (Returned 1,
     Clock.startup e ++ Clock.announce e ++ [Print ErrorStart; Call midi_cleanup]).
Proof.
  intros He Hl Hi Hs. unfold Clock.main.
  rewrite He, Hl. cbn [negb].
  destruct (Z.ltb_spec (Clock.init_ret e) 0); [ lia | ].
  destruct (Z.ltb_spec (Clock.start_ret e) 0); [ reflexivity | lia ].
Qed.

(** The same for debugAutomaticClock.py. *)
Lemma debug_main_running (e : DebugAutomaticClock.Env) :
  DebugAutomaticClock.lib_exists e = true ->
  DebugAutomaticClock.lib_loads e = true ->
  0 <= DebugAutomaticClock.init_ret e ->
  0 <= DebugAutomaticClock.start_ret e ->
  let interval := (1 / (Z2Qc BPM / Z2Qc 60 * Z2Qc PPQN))%Qc in
  let r := DebugAutomaticClock.loop
             (DebugAutomaticClock.cycles e)
             (DebugAutomaticClock.init_state
                interval (DebugAutomaticClock.t_change e)
                (DebugAutomaticClock.t_start e)) in
  DebugAutomaticClock.main e
  = (Returned 0,
     DebugAutomaticClock.startup e ++ DebugAutomaticClock.announce e
       ++ [Print (TickIntervalInfo interval)]
       ++ snd r ++ snd (shutdown (DebugAutomaticClock.ticker (fst r)))).
Proof.
  intros He Hl Hi Hs interval r. unfold DebugAutomaticClock.main.
  rewrite He, Hl. cbn [negb].
  destruct (Z.ltb_spec (DebugAutomaticClock.init_ret e) 0); [ lia | ].
  destruct (Z.ltb_spec (DebugAutomaticClock.start_ret e) 0); [ lia | ].
  rewrite (proj2 initial_tick_interval). fold interval. fold r.
  destruct r as [s ev]. reflexivity.
Qed.

Lemma debug_main_start_refused (e : DebugAutomaticClock.Env) :
  DebugAutomaticClock.lib_exists e = true ->
  DebugAutomaticClock.lib_loads e = true ->
  0 <= DebugAutomaticClock.init_ret e ->
  DebugAutomaticClock.start_ret e < 0 ->
  DebugAutomaticClock.main e
  = (Returned 1,
     DebugAutomaticClock.startup e ++ DebugAutomaticClock.announce e
       ++ [Print ErrorStart; Call midi_cleanup]).
Proof.
  intros He Hl Hi Hs. unfold DebugAutomaticClock.main.
  rewrite He, Hl. cbn [negb].
  destruct (Z.ltb_spec (DebugAutomaticClock.init_ret e) 0); [ lia | ].
  destruct (Z.ltb_spec (DebugAutomaticClock.start_ret e) 0); [ reflexivity | lia ].
Qed.

(** The calls made before the loop, in either script. *)
Lemma debug_announce_calls (e : DebugAutomaticClock.Env) :
  calls (DebugAutomaticClock.announce e)
  = [midi_set_tempo BPM; midi_get_client_id; midi_get_port_id;
     midi_get_queue_id; midi_send_start].
Proof.
  unfold DebugAutomaticClock.announce.
  destruct (DebugAutomaticClock.tempo_ret e <? 0); reflexivity.
Qed.

(** The library calls of a run that got past START: the calls before the
    loop, those of the loop, then STOP and cleanup. *)
Lemma clock_running_calls (e : Clock.Env) :
  Clock.lib_exists e = true -> Clock.lib_loads e = true ->
  0 <= Clock.init_ret e -> 0 <= Clock.start_ret e ->
  exists inner,
    calls (snd (Clock.main e))
    = [midi_init; midi_get_client_id; midi_get_port_id; midi_get_queue_id;
       midi_send_start] ++ inner ++ [midi_send_stop; midi_cleanup]
    /\ forallb loop_call inner = true
    /\ fst (Clock.main e) = Returned 0.
Proof.
  intros He Hl Hi Hs. rewrite (clock_main_running e He Hl Hi Hs).
  cbn [fst snd].
  match goal with
  | |- context [Clock.loop ?cs ?s] =>
      pose proof (clock_loop_spec cs s) as L;
      destruct (Clock.loop cs s) as [s' ev]
  end.
  destruct L as (_ & _ & L3 & _).
  exists (calls ev). rewrite !calls_app. cbn [fst snd]. repeat split. exact L3.
Qed.

Lemma debug_running_calls (e : DebugAutomaticClock.Env) :
  DebugAutomaticClock.lib_exists e = true ->
  DebugAutomaticClock.lib_loads e = true ->
  0 <= DebugAutomaticClock.init_ret e ->
  0 <= DebugAutomaticClock.start_ret e ->
  exists inner,
    calls (snd (DebugAutomaticClock.main e))
    = [midi_init; midi_set_tempo BPM; midi_get_client_id; midi_get_port_id;
       midi_get_queue_id; midi_send_start]
        ++ inner ++ [midi_send_stop; midi_cleanup]
    /\ forallb loop_call inner = true
    /\ fst (DebugAutomaticClock.main e) = Returned 0.
Proof.
  intros He Hl Hi Hs. rewrite (debug_main_running e He Hl Hi Hs).
  cbn [fst snd].
  match goal with
  | |- context [DebugAutomaticClock.loop ?cs ?s] =>
      assert (I : (DebugAutomaticClock.seq_index s
                   < length DebugAutomaticClock.bpm_sequence)%nat)
        by (simpl; lia);
      pose proof (debug_loop_spec cs s I) as L;
      destruct (DebugAutomaticClock.loop cs s) as [s' ev]
  end.
  destruct L as (_ & _ & L3 & _).
  exists (calls ev). rewrite !calls_app, debug_announce_calls.
  cbn [fst snd]. repeat split. exact L3.
Qed.

(** STOP and cleanup are not calls of the loop body. *)
Lemma stop_not_loop_call (c : LibCall) : is_send_stop c = true -> loop_call c = false.
Proof. destruct c; simpl; congruence. Qed.

Lemma cleanup_not_loop_call (c : LibCall) : is_cleanup c = true -> loop_call c = false.
Proof. destruct c; simpl; congruence. Qed.

Lemma stop_or_cleanup_not_loop_call (c : LibCall) :
  is_send_stop c || is_cleanup c = true -> loop_call c = false.
Proof. destruct c; simpl; congruence. Qed.

(** C9.  In both scripts, every run in which the library initialised calls
    [midi_cleanup] exactly once before it returns.  If START was accepted,
    however the loop ended (the flag found cleared, or a pulse refused), the
    run sends STOP exactly once, before the cleanup, and returns.  If START
    was refused the run still cleans up once and returns; it sends no STOP. *)
Theorem stop_and_cleanup_once :
  (forall e,
      Clock.lib_exists e = true -> Clock.lib_loads e = true ->
      0 <= Clock.init_ret e ->
      let '(out, ev) := Clock.main e in
      count is_cleanup ev = 1%nat
      /\ (0 <= Clock.start_ret e ->
          out = Returned 0
          /\ count is_send_stop ev = 1%nat
          /\ filter (fun c => is_send_stop c || is_cleanup c) (calls ev)
             = [midi_send_stop; midi_cleanup])
      /\ (Clock.start_ret e < 0 ->
          out = Returned 1 /\ count is_send_stop ev = 0%nat))
  /\ (forall e,
      DebugAutomaticClock.lib_exists e = true ->
      DebugAutomaticClock.lib_loads e = true ->
      0 <= DebugAutomaticClock.init_ret e ->
      let '(out, ev) := DebugAutomaticClock.main e in
      count is_cleanup ev = 1%nat
      /\ (0 <= DebugAutomaticClock.start_ret e ->
          out = Returned 0
          /\ count is_send_stop ev = 1%nat
          /\ filter (fun c => is_send_stop c || is_cleanup c) (calls ev)
             = [midi_send_stop; midi_cleanup])
      /\ (DebugAutomaticClock.start_ret e < 0 ->
          out = Returned 1 /\ count is_send_stop ev = 0%nat)).
Proof.
  split; intros e He Hl Hi.
  - destruct (Z.ltb_spec (Clock.start_ret e) 0) as [Hs | Hs].
    + rewrite (clock_main_start_refused e He Hl Hi Hs).
      split_all; try lia; reflexivity.
    + destruct (clock_running_calls e He Hl Hi Hs) as (inner & C & F & O).
      destruct (Clock.main e) as [out ev]. cbn [fst snd] in *.
      unfold count. rewrite C, !filter_app.
      rewrite (filter_loop_calls _ inner cleanup_not_loop_call F).
      rewrite (filter_loop_calls _ inner stop_not_loop_call F).
      rewrite (filter_loop_calls _ inner stop_or_cleanup_not_loop_call F).
      split_all; try lia; trivial.
  - destruct (Z.ltb_spec (DebugAutomaticClock.start_ret e) 0) as [Hs | Hs].
    + rewrite (debug_main_start_refused e He Hl Hi Hs).
      unfold count. rewrite !calls_app, debug_announce_calls.
      split_all; try lia; reflexivity.
    + destruct (debug_running_calls e He Hl Hi Hs) as (inner & C & F & O).
      destruct (DebugAutomaticClock.main e) as [out ev]. cbn [fst snd] in *.
      unfold count. rewrite C, !filter_app.
      rewrite (filter_loop_calls _ inner cleanup_not_loop_call F).
      rewrite (filter_loop_calls _ inner stop_not_loop_call F).
      rewrite (filter_loop_calls _ inner stop_or_cleanup_not_loop_call F).
      split_all; try lia; trivial.
Qed.

Lemma stop_and_cleanup_once_witness :
  let e := Clock.mkEnv true true 0 128 0 0 0 0%Qc
                       [mkPulse 0 0 0%Qc 0%Qc; mkPulse (-1) 0 0%Qc 0%Qc] in
  count is_cleanup (snd (Clock.main e)) = 1%nat
  /\ count is_send_stop (snd (Clock.main e)) = 1%nat.
Proof.
  intro e.
  destruct stop_and_cleanup_once as (H & _).
  specialize (H e eq_refl eq_refl ltac:(simpl; lia)).
  destruct (Clock.main e) as [out ev]. cbn [snd].
  destruct H as (H1 & H2 & _).
  split; [ exact H1 | apply H2; simpl; lia ].
Defined.

(** C1.  What both scripts do when [midi_send_clock] is refused in some pass
    of the loop, after [length pre] accepted pulses: the loop is left at once
    (the refused call is the last pulse call, nothing of the passes that
    would have followed happens), the shutdown sequence runs (STOP, the grace
    delay, cleanup), the totals printed are the counters as of the failure,
    and [main] returns 0.  The claim asks for a non-zero status there. *)
Theorem refused_pulse_ends_run :
  (forall e pre p post,
      Clock.lib_exists e = true -> Clock.lib_loads e = true ->
      0 <= Clock.init_ret e -> 0 <= Clock.start_ret e ->
      Clock.cycles e = pre ++ p :: post ->
      Forall (fun p => 0 <= send_clock_ret p) pre ->
      send_clock_ret p < 0 ->
      let '(out, ev) := Clock.main e in
      out = Returned 0
      /\ count is_send_clock ev = S (length pre)
      /\ exists before,
          ev = before
               ++ [Call midi_send_clock; Print ErrorClock;
                   Print Stopping; Call midi_send_stop; Sleep grace_delay;
                   Call midi_cleanup;
                   Print (TotalTicks (Z.of_nat (length pre)));
                   Print (TotalBeats (Z.of_nat (length pre) / 24));
                   Print ShutdownComplete])
  /\ (forall e pre c post,
      DebugAutomaticClock.lib_exists e = true ->
      DebugAutomaticClock.lib_loads e = true ->
      0 <= DebugAutomaticClock.init_ret e ->
      0 <= DebugAutomaticClock.start_ret e ->
      DebugAutomaticClock.cycles e = pre ++ c :: post ->
      Forall (fun c => 0 <= send_clock_ret (DebugAutomaticClock.pulse c)) pre ->
      send_clock_ret (DebugAutomaticClock.pulse c) < 0 ->
      let '(out, ev) := DebugAutomaticClock.main e in
      out = Returned 0
      /\ count is_send_clock ev = S (length pre)
      /\ exists before,
          ev = before
               ++ [Call midi_send_clock; Print ErrorClock;
                   Print Stopping; Call midi_send_stop; Sleep grace_delay;
                   Call midi_cleanup;
                   Print (TotalTicks (Z.of_nat (length pre)));
                   Print (TotalBeats (Z.of_nat (length pre) / 24));
                   Print ShutdownComplete]).
Proof.
  split.
  - intros e pre p post He Hl Hi Hs Hc Hpre Hp.
    rewrite (clock_main_running e He Hl Hi Hs). rewrite Hc.
    set (s0 := Clock.init_ticker _ _).
    destruct (clock_loop_refused pre p post Hpre Hp s0) as [E C]. rewrite E.
    pose proof (clock_loop_spec pre s0) as L.
    destruct (Clock.loop pre s0) as [s ev]. cbn [fst snd] in *.
    destruct L as (_ & L2 & _ & L4).
    specialize (L4 Hpre). specialize (L2 eq_refl).
    change (tick_count s0) with 0 in L4. rewrite Z.add_0_l in L4.
    unfold counters_ok in L2. rewrite L4 in L2. change PPQN with 24 in L2.
    split; [ reflexivity | split ].
    + rewrite !count_app, C.
      cbv [count calls flat_map app filter is_send_clock length
           Clock.startup Clock.announce shutdown snd].
      lia.
    + exists (Clock.startup e ++ Clock.announce e
              ++ [Print (TickIntervalInfo (1 / (Z2Qc BPM / Z2Qc 60 * Z2Qc PPQN))%Qc)]
              ++ ev).
      unfold shutdown. cbn [snd]. rewrite L4, L2.
      rewrite <- !app_assoc. reflexivity.
  - intros e pre c post He Hl Hi Hs Hc Hpre Hp.
    rewrite (debug_main_running e He Hl Hi Hs). rewrite Hc.
    set (st0 := DebugAutomaticClock.init_state _ _ _).
    assert (I0 : (DebugAutomaticClock.seq_index st0
                  < length DebugAutomaticClock.bpm_sequence)%nat)
      by (simpl; lia).
    destruct (debug_loop_refused pre c post Hpre Hp st0 I0) as (E & C & I).
    rewrite E.
    pose proof (debug_loop_spec pre st0 I0) as L.
    destruct (DebugAutomaticClock.loop pre st0) as [st ev]. cbn [fst snd] in *.
    destruct L as (L1 & _ & _ & L4).
    specialize (L4 Hpre). specialize (L1 eq_refl).
    change (tick_count (DebugAutomaticClock.ticker st0)) with 0 in L4.
    rewrite Z.add_0_l in L4.
    unfold counters_ok in L1. rewrite L4 in L1. change PPQN with 24 in L1.
    pose proof (tempo_change_check_spec c st I) as T.
    destruct (DebugAutomaticClock.tempo_change_check c st)
      as [[flow st'] ev'].
    destruct T as (_ & _ & T2 & T3 & _ & T5 & _). cbn [fst snd].
    split; [ reflexivity | split ].
    + unfold DebugAutomaticClock.startup, count.
      rewrite !calls_app, debug_announce_calls, !filter_app, !length_app.
      fold (count is_send_clock ev). fold (count is_send_clock ev').
      rewrite C, T5. simpl. lia.
    + exists (DebugAutomaticClock.startup e ++ DebugAutomaticClock.announce e
              ++ [Print (TickIntervalInfo (1 / (Z2Qc BPM / Z2Qc 60 * Z2Qc PPQN))%Qc)]
              ++ ev ++ ev').
      unfold shutdown. cbn [snd]. rewrite T2, T3, L4, L1.
      rewrite <- !app_assoc. reflexivity.
Qed.

Lemma refused_pulse_ends_run_witness :
  let ok := mkPulse 0 0 0%Qc 0%Qc in
  let refused := mkPulse (-1) 0 0%Qc 0%Qc in
  let e := Clock.mkEnv true true 0 128 0 0 0 0%Qc [ok; refused; ok] in
  fst (Clock.main e) = Returned 0
  /\ count is_send_clock (snd (Clock.main e)) = 2%nat.
Proof.
  intros ok refused e.
  destruct refused_pulse_ends_run as (H & _).
  assert (F : Forall (fun p => 0 <= send_clock_ret p) [ok])
    by (repeat constructor; simpl; lia).
  specialize (H e [ok] refused [ok] eq_refl eq_refl
                ltac:(simpl; lia) ltac:(simpl; lia) eq_refl F
                ltac:(simpl; lia)).
  destruct (Clock.main e) as [out ev]. cbn [fst snd].
  destruct H as (H1 & H2 & _). split; assumption.
Defined.

(** ** The three outcomes of the tempo-change check *)

Lemma tempo_check_not_due
      (c : DebugAutomaticClock.Cycle) (st : DebugAutomaticClock.State) :
  (DebugAutomaticClock.now c < DebugAutomaticClock.next_change_time st)%Qc ->
  DebugAutomaticClock.tempo_change_check c st = (Continue, st, []).
Proof.
  intro H. unfold DebugAutomaticClock.tempo_change_check.
  apply Qcleb_nle in H. rewrite H. reflexivity.
Qed.

Lemma tempo_check_refused
      (c : DebugAutomaticClock.Cycle) (st : DebugAutomaticClock.State) (b : Z) :
  (DebugAutomaticClock.next_change_time st <= DebugAutomaticClock.now c)%Qc ->
  nth_error DebugAutomaticClock.bpm_sequence (DebugAutomaticClock.seq_index st)
  = Some b ->
  DebugAutomaticClock.set_tempo_ret c < 0 ->
  DebugAutomaticClock.tempo_change_check c st
  = (Continue,
     DebugAutomaticClock.mkState
       (DebugAutomaticClock.current_bpm st)
       ((DebugAutomaticClock.seq_index st + 1)
          mod length DebugAutomaticClock.bpm_sequence)%nat
       (DebugAutomaticClock.next_change_time st
        + DebugAutomaticClock.change_period)%Qc
       (DebugAutomaticClock.set_next_tick_time
          (DebugAutomaticClock.now c) (DebugAutomaticClock.ticker st)),
     [Call (midi_set_tempo b); Print (WarnSetTempo b)]).
Proof.
  intros Hdue Hb Hret. unfold DebugAutomaticClock.tempo_change_check.
  apply Qcleb_le in Hdue. rewrite Hdue, Hb.
  destruct (Z.ltb_spec (DebugAutomaticClock.set_tempo_ret c) 0);
    [ reflexivity | lia ].
Qed.

Lemma tempo_check_applied
      (c : DebugAutomaticClock.Cycle) (st : DebugAutomaticClock.State) (b : Z) :
  (DebugAutomaticClock.next_change_time st <= DebugAutomaticClock.now c)%Qc ->
  nth_error DebugAutomaticClock.bpm_sequence (DebugAutomaticClock.seq_index st)
  = Some b ->
  0 <= DebugAutomaticClock.set_tempo_ret c ->
  DebugAutomaticClock.tempo_change_check c st
  = (Continue,
     DebugAutomaticClock.mkState
       b
       ((DebugAutomaticClock.seq_index st + 1)
          mod length DebugAutomaticClock.bpm_sequence)%nat
       (DebugAutomaticClock.next_change_time st
        + DebugAutomaticClock.change_period)%Qc
       (DebugAutomaticClock.set_next_tick_time
          (DebugAutomaticClock.now c)
          (DebugAutomaticClock.set_tick_interval
             (1 / (Z2Qc b / Z2Qc 60 * Z2Qc PPQN))%Qc
             (DebugAutomaticClock.ticker st))),
     [Call (midi_set_tempo b); Print (TempoChanged b)]).
Proof.
  intros Hdue Hb Hret. unfold DebugAutomaticClock.tempo_change_check.
  apply Qcleb_le in Hdue. rewrite Hdue, Hb.
  destruct (Z.ltb_spec (DebugAutomaticClock.set_tempo_ret c) 0); [ lia | ].
  rewrite (tick_interval_defined b (bpm_sequence_pos _ _ Hb)). reflexivity.
Qed.

Lemma index_in_range (i : nat) :
  (i < length DebugAutomaticClock.bpm_sequence)%nat ->
  exists b, nth_error DebugAutomaticClock.bpm_sequence i = Some b.
Proof.
  intro H. destruct (nth_error DebugAutomaticClock.bpm_sequence i) eqn:E.
  - eauto.
  - apply nth_error_None in E. lia.
Qed.

(** C2, as the code has it.  In every pass in which a schedule entry is due
    (the clock reading has reached [next_change_time]) the tempo-change check
    sets [next_tick_time] to that reading, whether [midi_set_tempo] accepts
    the change or refuses it; in a pass in which no entry is due the check
    changes nothing and does nothing. *)
Theorem tempo_check_resyncs_when_due
        (c : DebugAutomaticClock.Cycle) (st : DebugAutomaticClock.State) :
  (DebugAutomaticClock.seq_index st
   < length DebugAutomaticClock.bpm_sequence)%nat ->
  let '(flow, st', ev) := DebugAutomaticClock.tempo_change_check c st in
  ((DebugAutomaticClock.next_change_time st <= DebugAutomaticClock.now c)%Qc ->
   flow = Continue
   /\ next_tick_time (DebugAutomaticClock.ticker st')
      = DebugAutomaticClock.now c)
  /\ ((DebugAutomaticClock.now c < DebugAutomaticClock.next_change_time st)%Qc ->
      flow = Continue /\ st' = st /\ ev = []).
Proof.
  intro Hi. destruct (index_in_range _ Hi) as [b Hb].
  destruct (Qclt_le_dec (DebugAutomaticClock.now c)
                        (DebugAutomaticClock.next_change_time st)) as [L | L].
  - rewrite (tempo_check_not_due c st L). split_all; trivial.
    exfalso. exact (Qclt_not_le _ _ L ltac:(assumption)).
  - destruct (Z.ltb_spec (DebugAutomaticClock.set_tempo_ret c) 0) as [R | R].
    + rewrite (tempo_check_refused c st b L Hb R).
      split_all; trivial; exfalso; exact (Qclt_not_le _ _ ltac:(eassumption) L).
    + rewrite (tempo_check_applied c st b L Hb R).
      split_all; trivial; exfalso; exact (Qclt_not_le _ _ ltac:(eassumption) L).
Qed.

Lemma tempo_check_resyncs_when_due_witness :
  let st := DebugAutomaticClock.init_state (Z2Qc 1) 0%Qc 0%Qc in
  let c := DebugAutomaticClock.mkCycle (Z2Qc 11) (-1)
             (mkPulse 0 0 (Z2Qc 11) (Z2Qc 11)) in
  next_tick_time
    (DebugAutomaticClock.ticker
       (snd (fst (DebugAutomaticClock.tempo_change_check c st))))
  = Z2Qc 11.
Proof.
  intros st c.
  pose proof (tempo_check_resyncs_when_due c st ltac:(simpl; lia)) as H.
  destruct (DebugAutomaticClock.tempo_change_check c st) as [[flow st'] ev].
  apply H. vm_compute. discriminate.
Defined.

(** C2, as the claim states it, fails.  After ten stall-free seconds the
    deadline stands at 10 s; the loop wakes one millisecond late, the first
    schedule entry is due, [midi_set_tempo] refuses it, and the check still
    moves the deadline to the clock reading. *)
Lemma refused_set_tempo_moves_deadline :
  let st0 := DebugAutomaticClock.init_state (Q2Qc (1 # 48)) 0%Qc 0%Qc in
  let st := fst (DebugAutomaticClock.loop
                   (DebugAutomaticClock.ideal_script 480 0%Qc st0) st0) in
  let late := Q2Qc (10001 # 1000) in
  let c := DebugAutomaticClock.mkCycle late (-1) (mkPulse 0 0 late late) in
  (DebugAutomaticClock.next_change_time st <= DebugAutomaticClock.now c)%Qc
  /\ DebugAutomaticClock.set_tempo_ret c < 0
  /\ this (next_tick_time (DebugAutomaticClock.ticker st)) = 10 # 1
  /\ this (next_tick_time
             (DebugAutomaticClock.ticker
                (snd (fst (DebugAutomaticClock.tempo_change_check c st)))))
     = 10001 # 1000
  /\ next_tick_time
       (DebugAutomaticClock.ticker
          (snd (fst (DebugAutomaticClock.tempo_change_check c st))))
     <> next_tick_time (DebugAutomaticClock.ticker st).
Proof.
  intros st0 st late c.
  split; [ | split; [ | split; [ | split ] ] ].
  - vm_compute. discriminate.
  - reflexivity.
  - vm_compute. reflexivity.
  - vm_compute. reflexivity.
  - intro H. apply (f_equal this) in H. vm_compute in H. discriminate.
Qed.

(** C5.  In every pass in which a schedule entry is due and [midi_set_tempo]
    refuses it, the tempo-change check leaves [current_bpm] and
    [tick_interval] as they were, warns, and goes on: the pass continues to
    its pulse and, the pulse accepted, the loop continues.  The schedule index
    has moved one step, cyclically, and the next change time ten seconds, so
    no later pass calls [midi_set_tempo] before that time: the missed entry is
    not tried again. *)
Theorem refused_set_tempo_keeps_tempo
        (c : DebugAutomaticClock.Cycle) (st : DebugAutomaticClock.State)
        (new_bpm : Z) :
  (DebugAutomaticClock.next_change_time st <= DebugAutomaticClock.now c)%Qc ->
  nth_error DebugAutomaticClock.bpm_sequence (DebugAutomaticClock.seq_index st)
  = Some new_bpm ->
  DebugAutomaticClock.set_tempo_ret c < 0 ->
  let '(flow, st', ev) := DebugAutomaticClock.tempo_change_check c st in
  flow = Continue
  /\ DebugAutomaticClock.current_bpm st' = DebugAutomaticClock.current_bpm st
  /\ tick_interval (DebugAutomaticClock.ticker st')
     = tick_interval (DebugAutomaticClock.ticker st)
  /\ DebugAutomaticClock.seq_index st'
     = ((DebugAutomaticClock.seq_index st + 1)
          mod length DebugAutomaticClock.bpm_sequence)%nat
  /\ DebugAutomaticClock.next_change_time st'
     = (DebugAutomaticClock.next_change_time st
        + DebugAutomaticClock.change_period)%Qc
  /\ ev = [Call (midi_set_tempo new_bpm); Print (WarnSetTempo new_bpm)]
  /\ (0 <= send_clock_ret (DebugAutomaticClock.pulse c) ->
      fst (fst (DebugAutomaticClock.cycle c st)) = Continue)
  /\ (forall c2,
        (DebugAutomaticClock.now c2
         < DebugAutomaticClock.next_change_time st')%Qc ->
        set_tempo_calls (snd (DebugAutomaticClock.cycle c2 st')) = []).
Proof.
  intros Hdue Hb Hret.
  pose proof (tempo_check_refused c st new_bpm Hdue Hb Hret) as E.
  rewrite E. split_all; trivial.
  - rewrite (cycle_unfold c st _ _ E). cbn [fst].
    match goal with
    | |- context [pulse_cycle ?p ?s] =>
        pose proof (pulse_cycle_spec p s) as P;
        destruct (pulse_cycle p s) as [[flow tk] ev2]
    end.
    destruct P as (_ & _ & _ & _ & _ & _ & P7 & _).
    now apply P7.
  - match goal with
    | H : (DebugAutomaticClock.now c2 < _)%Qc |- _ =>
        pose proof (tempo_check_not_due c2 _ H) as N
    end.
    rewrite (cycle_unfold c2 _ _ _ N). cbn [snd app].
    match goal with
    | |- context [pulse_cycle ?p ?s] =>
        pose proof (pulse_cycle_spec p s) as P;
        destruct (pulse_cycle p s) as [[flow tk] ev2]
    end.
    destruct P as (_ & _ & _ & _ & _ & P6 & _). exact P6.
Qed.

Lemma refused_set_tempo_keeps_tempo_witness :
  let st := DebugAutomaticClock.init_state (Z2Qc 1) 0%Qc 0%Qc in
  let c := DebugAutomaticClock.mkCycle (Z2Qc 11) (-1)
             (mkPulse 0 0 (Z2Qc 11) (Z2Qc 11)) in
  DebugAutomaticClock.current_bpm
    (snd (fst (DebugAutomaticClock.tempo_change_check c st))) = 120
  /\ DebugAutomaticClock.seq_index
       (snd (fst (DebugAutomaticClock.tempo_change_check c st))) = 1%nat.
Proof.
  intros st c.
  assert (D : (DebugAutomaticClock.next_change_time st
               <= DebugAutomaticClock.now c)%Qc)
    by (vm_compute; discriminate).
  pose proof (refused_set_tempo_keeps_tempo c st 80 D eq_refl
                ltac:(simpl; lia)) as H.
  destruct (DebugAutomaticClock.tempo_change_check c st) as [[flow st'] ev].
  destruct H as (_ & H1 & _ & H2 & _). cbn [fst snd].
  split; [ rewrite H1 | rewrite H2 ]; reflexivity.
Defined.

(** ** An applied change *)




(** ** Overdue schedule entries *)

Lemma Z2Qc_succ (n : nat) :
  Z2Qc (Z.of_nat (S n)) = (Z2Qc (Z.of_nat n) + 1)%Qc.
Proof.
  apply Qc_is_canon. rewrite this_plus, !this_Z2Qc, Nat2Z.inj_succ.
  unfold Z.succ. rewrite inject_Z_plus. reflexivity.
Qed.

Lemma entries_from_S (i k : nat) :
  (i < length DebugAutomaticClock.bpm_sequence)%nat ->
  entries_from i (S k)
  = nth i DebugAutomaticClock.bpm_sequence 0
    :: entries_from ((i + 1) mod length DebugAutomaticClock.bpm_sequence) k.
Proof.
  intro Hi. unfold entries_from. cbn [seq map].
  rewrite Nat.add_0_r, (Nat.mod_small _ _ Hi). f_equal.
  rewrite <- seq_shift, map_map. apply map_ext. intro j.
  rewrite Nat.Div0.add_mod_idemp_l. do 2 f_equal. lia.
Qed.

(** A pass in which an entry is due attempts that entry, once, and moves the
    schedule on, whether the attempt succeeds or not. *)
Lemma cycle_due
      (c : DebugAutomaticClock.Cycle) (st : DebugAutomaticClock.State) (b : Z) :
  (DebugAutomaticClock.next_change_time st <= DebugAutomaticClock.now c)%Qc ->
  nth_error DebugAutomaticClock.bpm_sequence (DebugAutomaticClock.seq_index st)
  = Some b ->
  let '(flow, st', ev) := DebugAutomaticClock.cycle c st in
  set_tempo_calls ev = [b]
  /\ DebugAutomaticClock.next_change_time st'
     = (DebugAutomaticClock.next_change_time st
        + DebugAutomaticClock.change_period)%Qc
  /\ DebugAutomaticClock.seq_index st'
     = ((DebugAutomaticClock.seq_index st + 1)
          mod length DebugAutomaticClock.bpm_sequence)%nat
  /\ (0 <= send_clock_ret (DebugAutomaticClock.pulse c) -> flow = Continue).
Proof.
  intros Hdue Hb.
  assert (E : exists tk' m,
             DebugAutomaticClock.tempo_change_check c st
             = (Continue,
                DebugAutomaticClock.mkState
                  (match m with WarnSetTempo _ =>
                                  DebugAutomaticClock.current_bpm st
                              | _ => b end)
                  ((DebugAutomaticClock.seq_index st + 1)
                     mod length DebugAutomaticClock.bpm_sequence)%nat
                  (DebugAutomaticClock.next_change_time st
                   + DebugAutomaticClock.change_period)%Qc
                  tk',
                [Call (midi_set_tempo b); Print m])).
  { destruct (Z.ltb_spec (DebugAutomaticClock.set_tempo_ret c) 0) as [R | R].
    - rewrite (tempo_check_refused c st b Hdue Hb R).
      eexists _, (WarnSetTempo b). reflexivity.
    - rewrite (tempo_check_applied c st b Hdue Hb R).
      eexists _, (TempoChanged b). reflexivity. }
  destruct E as (tk' & m & E).
  rewrite (cycle_unfold c st _ _ E).
  match goal with
  | |- context [pulse_cycle ?p ?s] =>
      pose proof (pulse_cycle_spec p s) as P;
      destruct (pulse_cycle p s) as [[flow tk] ev2]
  end.
  destruct P as (_ & _ & _ & _ & _ & P6 & P7 & _).
  cbn [fst snd DebugAutomaticClock.next_change_time
       DebugAutomaticClock.seq_index].
  rewrite set_tempo_calls_app, P6. split_all; trivial. now apply P7.
Qed.

Lemma overdue_loop (cs : list DebugAutomaticClock.Cycle) :
  forall st,
    (DebugAutomaticClock.seq_index st
     < length DebugAutomaticClock.bpm_sequence)%nat ->
    overdue (DebugAutomaticClock.next_change_time st) cs ->
    let '(st', ev) := DebugAutomaticClock.loop cs st in
    set_tempo_calls ev
    = entries_from (DebugAutomaticClock.seq_index st) (length cs)
    /\ DebugAutomaticClock.next_change_time st'
       = (DebugAutomaticClock.next_change_time st
          + DebugAutomaticClock.change_period * Z2Qc (Z.of_nat (length cs)))%Qc
    /\ DebugAutomaticClock.seq_index st'
       = ((DebugAutomaticClock.seq_index st + length cs)
            mod length DebugAutomaticClock.bpm_sequence)%nat.
Proof.
  induction cs as [ | c cs IH ]; intros st Hi Hov.
  - cbn [DebugAutomaticClock.loop length]. split_all.
    + reflexivity.
    + change (Z2Qc (Z.of_nat 0)) with 0%Qc. ring.
    + rewrite Nat.add_0_r. symmetry. now apply Nat.mod_small.
  - destruct Hov as (Hdue & Hclk & Hov).
    destruct (index_in_range _ Hi) as [b Hb].
    cbn [DebugAutomaticClock.loop].
    pose proof (cycle_due c st b Hdue Hb) as D.
    destruct (DebugAutomaticClock.cycle c st) as [[flow st1] ev1].
    destruct D as (D1 & D2 & D3 & D4). rewrite (D4 Hclk).
    assert (Hi1 : (DebugAutomaticClock.seq_index st1
                   < length DebugAutomaticClock.bpm_sequence)%nat)
      by (rewrite D3; apply seq_index_next).
    rewrite <- D2 in Hov. specialize (IH st1 Hi1 Hov).
    destruct (DebugAutomaticClock.loop cs st1) as [st2 ev2].
    destruct IH as (I1 & I2 & I3).
    split_all.
    + rewrite set_tempo_calls_app, D1, I1, D3.
      rewrite length_cons, (entries_from_S _ _ Hi).
      cbn [app]. f_equal. symmetry. now apply nth_error_nth.
    + rewrite I2, D2, length_cons, Z2Qc_succ. ring.
    + rewrite I3, D3, length_cons, Nat.Div0.add_mod_idemp_l. f_equal. lia.
Qed.

(** A stall that ends at time [T], past the last of [length cs] change
    points, leaves every one of the following passes overdue. *)
Lemma stalled_overdue (cs : list DebugAutomaticClock.Cycle) (T : Qc) :
  forall next_change,
    (next_change
     + DebugAutomaticClock.change_period * Z2Qc (Z.of_nat (length cs) - 1)
     <= T)%Qc ->
    Forall (fun c => (T <= DebugAutomaticClock.now c)%Qc
                     /\ 0 <= send_clock_ret (DebugAutomaticClock.pulse c)) cs ->
    overdue next_change cs.
Proof.
  induction cs as [ | c cs IH ]; intros nc HT Hall; [ exact I | ].
  inversion Hall as [ | ? ? [Hnow Hclk] Hrest ]; subst.
  rewrite length_cons in HT.
  replace (Z.of_nat (S (length cs)) - 1) with (Z.of_nat (length cs)) in HT by lia.
  assert (Hn : (0 <= inject_Z (Z.of_nat (length cs)))%Q)
    by (change 0%Q with (inject_Z 0); rewrite <- Zle_Qle; lia).
  unfold DebugAutomaticClock.change_period in HT.
  unfold Qcle in HT, Hnow. rewrite this_plus, this_mult, !this_Z2Qc in HT.
  change (inject_Z 10) with (10 # 1)%Q in HT.
  cbn [overdue]. split; [ | split; [ exact Hclk | ] ].
  - unfold Qcle. lra.
  - apply IH; [ | exact Hrest ].
    replace (Z.of_nat (length cs) - 1) with (Z.of_nat (length cs) + - (1)) by lia.
    unfold DebugAutomaticClock.change_period, Qcle.
    rewrite !this_plus, this_mult, !this_Z2Qc, inject_Z_plus.
    change (inject_Z 10) with (10 # 1)%Q.
    change (inject_Z (- (1))) with (- (1))%Q. lra.
Qed.

(** C10.  In the tempo-varying script a pass of the loop hands at most one
    schedule entry to [midi_set_tempo]; a pass in which an entry is due moves
    [next_change_time] by exactly ten seconds, however late the clock reading
    is; and when the loop has stalled until time [T], past the last of [k]
    change points, the next [k] passes (pulses accepted) each attempt one
    entry, in schedule order, leaving the schedule [k] entries and [10 k]
    seconds further on. *)
Theorem overdue_entries_one_per_pass :
  (forall c st,
      (length (set_tempo_calls (snd (DebugAutomaticClock.cycle c st))) <= 1)%nat)
  /\ (forall c st,
      (DebugAutomaticClock.seq_index st
       < length DebugAutomaticClock.bpm_sequence)%nat ->
      (DebugAutomaticClock.next_change_time st <= DebugAutomaticClock.now c)%Qc ->
      DebugAutomaticClock.next_change_time
        (snd (fst (DebugAutomaticClock.cycle c st)))
      = (DebugAutomaticClock.next_change_time st
         + DebugAutomaticClock.change_period)%Qc)
  /\ (forall cs st T,
      (DebugAutomaticClock.seq_index st
       < length DebugAutomaticClock.bpm_sequence)%nat ->
      (DebugAutomaticClock.next_change_time st
       + DebugAutomaticClock.change_period * Z2Qc (Z.of_nat (length cs) - 1)
       <= T)%Qc ->
      Forall (fun c => (T <= DebugAutomaticClock.now c)%Qc
                       /\ 0 <= send_clock_ret (DebugAutomaticClock.pulse c)) cs ->
      let '(st', ev) := DebugAutomaticClock.loop cs st in
      set_tempo_calls ev
      = entries_from (DebugAutomaticClock.seq_index st) (length cs)
      /\ DebugAutomaticClock.next_change_time st'
         = (DebugAutomaticClock.next_change_time st
            + DebugAutomaticClock.change_period * Z2Qc (Z.of_nat (length cs)))%Qc
      /\ DebugAutomaticClock.seq_index st'
         = ((DebugAutomaticClock.seq_index st + length cs)
              mod length DebugAutomaticClock.bpm_sequence)%nat).
Proof.
  split; [ | split ].
  - intros c st. apply cycle_at_most_one_pulse.
  - intros c st Hi Hdue. destruct (index_in_range _ Hi) as [b Hb].
    pose proof (cycle_due c st b Hdue Hb) as D.
    destruct (DebugAutomaticClock.cycle c st) as [[flow st1] ev1].
    apply D.
  - intros cs st T Hi HT Hall.
    apply (overdue_loop cs st Hi).
    exact (stalled_overdue cs T _ HT Hall).
Qed.

Lemma overdue_entries_one_per_pass_witness :
  let st := DebugAutomaticClock.init_state (Q2Qc (1 # 48)) 0%Qc 0%Qc in
  let T := Z2Qc 31 in
  let c := DebugAutomaticClock.mkCycle T (-1) (mkPulse 0 0 T T) in
  set_tempo_calls (snd (DebugAutomaticClock.loop [c; c; c] st)) = [80; 140; 120].
Proof.
  intros st T c.
  destruct overdue_entries_one_per_pass as (_ & _ & H).
  assert (HT : (DebugAutomaticClock.next_change_time st
                + DebugAutomaticClock.change_period
                  * Z2Qc (Z.of_nat (length [c; c; c]) - 1) <= T)%Qc)
    by (vm_compute; discriminate).
  assert (Hall : Forall (fun c => (T <= DebugAutomaticClock.now c)%Qc
                                  /\ 0 <= send_clock_ret (DebugAutomaticClock.pulse c))
                        [c; c; c])
    by (repeat constructor; try (vm_compute; discriminate)).
  specialize (H [c; c; c] st T ltac:(simpl; lia) HT Hall).
  destruct (DebugAutomaticClock.loop [c; c; c] st) as [st' ev].
  destruct H as (H & _). exact H.
Defined.

(** ** The reference schedule, stall-free *)

(** C3, as the code has it.  In the stall-free run started at time 0, with
    every [midi_set_tempo] accepted, the tempo 35 s in is 120: the third
    entry of the schedule, due at 30 s, the entry most recently due.  The
    same holds in the middle of every ten-second segment, at 15 s, 25 s, 35 s
    and 45 s; the starting tempo 120 holds at 9 s; and a run cancelled after
    its pass 1601, which begins within one tick of 35 s, has applied exactly
    the changes 80, 140, 120 and returns 0.  All instants are taken away from
    the change points 10 s, 20 s, 30 s, ...: a change fires in the first pass
    that begins at or after its point, and whether a pass begins exactly on
    the point depends on the rounding of the binary64 sums, which the exact
    seconds used here do not have. *)
Theorem tempo_is_entry_most_recently_due :
  DebugAutomaticClock.ideal_tempo_at 35 = Some 120
  /\ DebugAutomaticClock.spec_most_recently_due 35 = Some 120
  /\ nth_error DebugAutomaticClock.bpm_sequence 2 = Some 120
  /\ Forall (fun T => DebugAutomaticClock.ideal_tempo_at T
                      = DebugAutomaticClock.spec_most_recently_due T)
            [15; 25; 35; 45]
  /\ DebugAutomaticClock.ideal_tempo_at 9 = Some BPM
  /\ (let e := DebugAutomaticClock.ideal_env 0%Qc 1601 in
      match nth_error (DebugAutomaticClock.cycles e) 1600 with
      | Some c =>
          Qcltb (Z2Qc 35 - Q2Qc (1 # 48))%Qc (DebugAutomaticClock.now c)
          && Qcltb (DebugAutomaticClock.now c) (Z2Qc 35 + Q2Qc (1 # 48))%Qc
      | None => false
      end = true
      /\ DebugAutomaticClock.tempo_changes (snd (DebugAutomaticClock.main e))
         = [80; 140; 120]
      /\ fst (DebugAutomaticClock.main e) = Returned 0).
Proof.
  split; [ vm_compute; reflexivity | ].
  split; [ reflexivity | ].
  split; [ reflexivity | ].
  split; [ repeat constructor; vm_compute; reflexivity | ].
  split; [ vm_compute; reflexivity | ].
  cbv zeta. split; [ vm_compute; reflexivity | ].
  split; vm_compute; reflexivity.
Qed.

(** C3, as the claim states it, fails: 35 s into that run the tempo is not
    140.  The entry 140 is the second one, due at 20 s and in force at 25 s;
    it is replaced by the entry due at 30 s. *)
Lemma tempo_at_35_is_not_140 :
  DebugAutomaticClock.ideal_tempo_at 35 <> Some 140
  /\ DebugAutomaticClock.ideal_tempo_at 25 = Some 140.
Proof.
  split; vm_compute; [ discriminate | reflexivity ].
Qed.

(** ** The tick interval stays positive

    Every loop state either script reaches has a positive tick interval: the
    hypothesis under which the wait of a pulse cycle was described. *)
Lemma tick_interval_always_positive :
  (forall cs t,
      (0 < tick_interval
             (fst (Clock.loop
                     cs (Clock.init_ticker
                           (1 / (Z2Qc BPM / Z2Qc 60 * Z2Qc PPQN))%Qc t))))%Qc)
  /\ (forall cs tc ts,
      (0 < tick_interval
             (DebugAutomaticClock.ticker
                (fst (DebugAutomaticClock.loop
                        cs (DebugAutomaticClock.init_state
                              (1 / (Z2Qc BPM / Z2Qc 60 * Z2Qc PPQN))%Qc tc ts)))))%Qc).
Proof.
  split.
  - intros cs t.
    pose proof (clock_loop_spec
                  cs (Clock.init_ticker
                        (1 / (Z2Qc BPM / Z2Qc 60 * Z2Qc PPQN))%Qc t)) as L.
    destruct (Clock.loop cs _) as [s ev]. destruct L as (L1 & _).
    cbn [fst]. rewrite L1. apply (tick_interval_value_pos BPM). reflexivity.
  - intros cs tc ts.
    assert (I : (DebugAutomaticClock.seq_index
                   (DebugAutomaticClock.init_state
                      (1 / (Z2Qc BPM / Z2Qc 60 * Z2Qc PPQN))%Qc tc ts)
                 < length DebugAutomaticClock.bpm_sequence)%nat)
      by (simpl; lia).
    pose proof (debug_loop_spec cs _ I) as L.
    destruct (DebugAutomaticClock.loop cs _) as [st ev].
    destruct L as (_ & L2 & _). cbn [fst]. apply L2.
    apply (tick_interval_value_pos BPM). reflexivity.
Qed.

(** * Further properties of the two scripts *)

(** ** The shapes of a run *)

Lemma clock_main_shape (e : Clock.Env) :
  (fst (Clock.main e) = Returned 1
   /\ (snd (Clock.main e) = [Print LibraryNotFound]
       \/ snd (Clock.main e) = [Print LibraryLoadError]
       \/ snd (Clock.main e) = Clock.startup e ++ [Print ErrorInit]
       \/ snd (Clock.main e)
          = Clock.startup e ++ Clock.announce e
              ++ [Print ErrorStart; Call midi_cleanup]))
  \/ (let interval := (1 / (Z2Qc BPM / Z2Qc 60 * Z2Qc PPQN))%Qc in
      let r := Clock.loop (Clock.cycles e)
                          (Clock.init_ticker interval (Clock.t_start e)) in
      Clock.main e
      = (Returned 0,
         Clock.startup e ++ Clock.announce e ++ [Print (TickIntervalInfo interval)]
           ++ snd r ++ snd (shutdown (fst r)))).
Proof.
  destruct (Clock.lib_exists e) eqn:He;
    [ | left; unfold Clock.main; rewrite He; simpl; auto ].
  destruct (Clock.lib_loads e) eqn:Hl;
    [ | left; unfold Clock.main; rewrite He, Hl; simpl; auto ].
  destruct (Z.ltb_spec (Clock.init_ret e) 0) as [Hi | Hi].
  - left. unfold Clock.main. rewrite He, Hl. cbn [negb].
    destruct (Z.ltb_spec (Clock.init_ret e) 0); [ | lia ]. simpl. auto.
  - destruct (Z.ltb_spec (Clock.start_ret e) 0) as [Hs | Hs].
    + left. rewrite (clock_main_start_refused e He Hl Hi Hs). simpl. auto 6.
    + right. exact (clock_main_running e He Hl Hi Hs).
Qed.

Lemma debug_main_shape (e : DebugAutomaticClock.Env) :
  (fst (DebugAutomaticClock.main e) = Returned 1
   /\ (snd (DebugAutomaticClock.main e) = [Print LibraryNotFound]
       \/ snd (DebugAutomaticClock.main e) = [Print LibraryLoadError]
       \/ snd (DebugAutomaticClock.main e)
          = DebugAutomaticClock.startup e ++ [Print ErrorInit]
       \/ snd (DebugAutomaticClock.main e)
          = DebugAutomaticClock.startup e ++ DebugAutomaticClock.announce e
              ++ [Print ErrorStart; Call midi_cleanup]))
  \/ (let interval := (1 / (Z2Qc BPM / Z2Qc 60 * Z2Qc PPQN))%Qc in
      let r := DebugAutomaticClock.loop
                 (DebugAutomaticClock.cycles e)
                 (DebugAutomaticClock.init_state
                    interval (DebugAutomaticClock.t_change e)
                    (DebugAutomaticClock.t_start e)) in
      DebugAutomaticClock.main e
      = (Returned 0,
         DebugAutomaticClock.startup e ++ DebugAutomaticClock.announce e
           ++ [Print (TickIntervalInfo interval)]
           ++ snd r ++ snd (shutdown (DebugAutomaticClock.ticker (fst r))))).
Proof.
  destruct (DebugAutomaticClock.lib_exists e) eqn:He;
    [ | left; unfold DebugAutomaticClock.main; rewrite He; simpl; auto ].
  destruct (DebugAutomaticClock.lib_loads e) eqn:Hl;
    [ | left; unfold DebugAutomaticClock.main; rewrite He, Hl; simpl; auto ].
  destruct (Z.ltb_spec (DebugAutomaticClock.init_ret e) 0) as [Hi | Hi].
  - left. unfold DebugAutomaticClock.main. rewrite He, Hl. cbn [negb].
    destruct (Z.ltb_spec (DebugAutomaticClock.init_ret e) 0); [ | lia ].
    simpl. auto.
  - destruct (Z.ltb_spec (DebugAutomaticClock.start_ret e) 0) as [Hs | Hs].
    + left. rewrite (debug_main_start_refused e He Hl Hi Hs). simpl. auto 6.
    + right. exact (debug_main_running e He Hl Hi Hs).
Qed.

(** ** What the loop bodies do to the outside *)

Lemma Forall_loop_event_ok_app (a b : list Event) :
  Forall loop_event_ok a -> Forall loop_event_ok b -> Forall loop_event_ok (a ++ b).
Proof. intros. apply Forall_app. split; assumption. Qed.

Lemma count_tick_events_ok (p : Pulse) (s : Ticker) :
  Forall loop_event_ok (snd (count_tick p s)).
Proof.
  unfold count_tick. destruct (_ =? 0); repeat constructor.
Qed.

Lemma wait_next_tick_events_ok (p : Pulse) (s : Ticker) :
  Forall loop_event_ok (snd (wait_next_tick p s)).
Proof.
  unfold wait_next_tick. cbv zeta.
  destruct (Qcltb 0%Qc _) eqn:E.
  - apply Qcltb_lt in E. constructor; [ exact E | constructor ].
  - destruct (Qcltb _ (- _)%Qc); constructor.
Qed.

Lemma pulse_cycle_events_ok (p : Pulse) (s : Ticker) :
  Forall loop_event_ok (snd (pulse_cycle p s)).
Proof.
  destruct (Z.ltb_spec (send_clock_ret p) 0) as [L | L].
  - rewrite (pulse_cycle_break p s L). repeat constructor.
  - rewrite (pulse_cycle_continue p s L). cbn [snd].
    constructor; [ reflexivity | ].
    apply Forall_loop_event_ok_app;
      [ apply count_tick_events_ok | apply wait_next_tick_events_ok ].
Qed.

Lemma tempo_check_events_ok
      (c : DebugAutomaticClock.Cycle) (st : DebugAutomaticClock.State) :
  Forall loop_event_ok (snd (DebugAutomaticClock.tempo_change_check c st)).
Proof.
  unfold DebugAutomaticClock.tempo_change_check.
  destruct (Qcleb _ _); [ | constructor ].
  destruct (nth_error _ _) as [b | ]; [ | constructor ].
  destruct (_ <? 0); [ repeat constructor | ].
  destruct (DebugAutomaticClock.calculate_tick_interval b); repeat constructor.
Qed.

Lemma clock_loop_events_ok (cs : list Pulse) :
  forall s, Forall loop_event_ok (snd (Clock.loop cs s)).
Proof.
  induction cs as [ | p cs IH ]; intro s; [ constructor | ].
  cbn [Clock.loop].
  pose proof (pulse_cycle_events_ok p s) as E.
  pose proof (pulse_cycle_spec p s) as P.
  destruct (pulse_cycle p s) as [[flow s1] ev1]. cbn [snd] in E.
  destruct P as (P1 & _).
  destruct flow; [ | exact E | congruence ].
  specialize (IH s1). destruct (Clock.loop cs s1) as [s2 ev2].
  cbn [snd] in *. now apply Forall_loop_event_ok_app.
Qed.

Lemma debug_cycle_events_ok
      (c : DebugAutomaticClock.Cycle) (st : DebugAutomaticClock.State) :
  Forall loop_event_ok (snd (DebugAutomaticClock.cycle c st)).
Proof.
  pose proof (tempo_check_events_ok c st) as T.
  destruct (DebugAutomaticClock.tempo_change_check c st) as [[flow st1] ev1] eqn:E.
  cbn [snd] in T. destruct flow.
  - rewrite (cycle_unfold c st st1 ev1 E). cbn [snd].
    apply Forall_loop_event_ok_app; [ exact T | apply pulse_cycle_events_ok ].
  - unfold DebugAutomaticClock.cycle. rewrite E. exact T.
  - unfold DebugAutomaticClock.cycle. rewrite E. exact T.
Qed.

Lemma debug_loop_events_ok (cs : list DebugAutomaticClock.Cycle) :
  forall st,
    (DebugAutomaticClock.seq_index st
     < length DebugAutomaticClock.bpm_sequence)%nat ->
    Forall loop_event_ok (snd (DebugAutomaticClock.loop cs st)).
Proof.
  induction cs as [ | c cs IH ]; intros st Hi; [ constructor | ].
  cbn [DebugAutomaticClock.loop].
  pose proof (debug_cycle_events_ok c st) as E.
  pose proof (cycle_spec c st Hi) as P.
  destruct (DebugAutomaticClock.cycle c st) as [[flow st1] ev1]. cbn [snd] in E.
  destruct P as (P1 & P2 & _).
  destruct flow; [ | exact E | congruence ].
  specialize (IH st1 P2). destruct (DebugAutomaticClock.loop cs st1) as [st2 ev2].
  cbn [snd] in *. now apply Forall_loop_event_ok_app.
Qed.

Lemma sleeps_of_ok_events (ev : list Event) :
  Forall loop_event_ok ev -> Forall (fun d => (0 < d)%Qc) (sleeps ev).
Proof.
  induction 1 as [ | e ev He _ IH ]; [ constructor | ].
  destruct e; cbn; trivial. constructor; assumption.
Qed.

(** ** Failures before the loop *)

(** X1.  A run that finds no library, or cannot load it, returns 1 without a
    single library call or sleep; a run whose [midi_init] is refused returns 1
    after that one call: no START, no pulse, no STOP and no cleanup.  Both
    scripts. *)
Theorem startup_failure_sends_nothing :
  (forall e,
      Clock.lib_exists e = false \/ Clock.lib_loads e = false ->
      fst (Clock.main e) = Returned 1
      /\ calls (snd (Clock.main e)) = []
      /\ sleeps (snd (Clock.main e)) = [])
  /\ (forall e,
      Clock.lib_exists e = true -> Clock.lib_loads e = true ->
      Clock.init_ret e < 0 ->
      fst (Clock.main e) = Returned 1
      /\ calls (snd (Clock.main e)) = [midi_init]
      /\ sleeps (snd (Clock.main e)) = [])
  /\ (forall e,
      DebugAutomaticClock.lib_exists e = false
      \/ DebugAutomaticClock.lib_loads e = false ->
      fst (DebugAutomaticClock.main e) = Returned 1
      /\ calls (snd (DebugAutomaticClock.main e)) = []
      /\ sleeps (snd (DebugAutomaticClock.main e)) = [])
  /\ (forall e,
      DebugAutomaticClock.lib_exists e = true ->
      DebugAutomaticClock.lib_loads e = true ->
      DebugAutomaticClock.init_ret e < 0 ->
      fst (DebugAutomaticClock.main e) = Returned 1
      /\ calls (snd (DebugAutomaticClock.main e)) = [midi_init]
      /\ sleeps (snd (DebugAutomaticClock.main e)) = []).
Proof.
  split; [ | split; [ | split ] ].
  - intros e H. unfold Clock.main.
    destruct (Clock.lib_exists e); [ | repeat split ].
    destruct H as [H | H]; [ discriminate | ]. rewrite H. repeat split.
  - intros e He Hl Hi. unfold Clock.main. rewrite He, Hl. cbn [negb].
    destruct (Z.ltb_spec (Clock.init_ret e) 0); [ repeat split | lia ].
  - intros e H. unfold DebugAutomaticClock.main.
    destruct (DebugAutomaticClock.lib_exists e); [ | repeat split ].
    destruct H as [H | H]; [ discriminate | ]. rewrite H. repeat split.
  - intros e He Hl Hi. unfold DebugAutomaticClock.main. rewrite He, Hl.
    cbn [negb].
    destruct (Z.ltb_spec (DebugAutomaticClock.init_ret e) 0);
      [ repeat split | lia ].
Qed.

Lemma startup_failure_sends_nothing_witness :
  let e := Clock.mkEnv true true (-1) 0 0 0 0 0%Qc [mkPulse 0 0 0%Qc 0%Qc] in
  fst (Clock.main e) = Returned 1 /\ calls (snd (Clock.main e)) = [midi_init].
Proof.
  intro e.
  destruct startup_failure_sends_nothing as (_ & H & _).
  destruct (H e eq_refl eq_refl ltac:(simpl; lia)) as (H1 & H2 & _).
  split; assumption.
Defined.

(** ** The order of the library calls *)

Lemma clock_loop_no_set_tempo (cs : list Pulse) :
  forall s, set_tempo_calls (snd (Clock.loop cs s)) = [].
Proof.
  induction cs as [ | p cs IH ]; intro s; [ reflexivity | ].
  cbn [Clock.loop].
  pose proof (pulse_cycle_spec p s) as P.
  destruct (pulse_cycle p s) as [[flow s1] ev1].
  destruct P as (P1 & _ & _ & _ & _ & P6 & _).
  destruct flow; [ | exact P6 | congruence ].
  specialize (IH s1). destruct (Clock.loop cs s1) as [s2 ev2].
  cbn [snd] in *. now rewrite set_tempo_calls_app, P6, IH.
Qed.

(** X2.  In every run that initialised the library and had START accepted,
    the library calls are, in this order: [midi_init] (and, in the
    tempo-varying script, [midi_set_tempo BPM]), the three id getters,
    [midi_send_start], then only calls of the loop body (pulses, counter
    reads, tempo changes), then [midi_send_stop] and last [midi_cleanup].  So
    no pulse is sent before START or after STOP and nothing is called after
    the cleanup.  clock.py never calls [midi_set_tempo]. *)
Theorem transport_call_order :
  (forall e,
      Clock.lib_exists e = true -> Clock.lib_loads e = true ->
      0 <= Clock.init_ret e -> 0 <= Clock.start_ret e ->
      (exists inner,
          calls (snd (Clock.main e))
          = [midi_init; midi_get_client_id; midi_get_port_id;
             midi_get_queue_id; midi_send_start]
              ++ inner ++ [midi_send_stop; midi_cleanup]
          /\ forallb loop_call inner = true)
      /\ set_tempo_calls (snd (Clock.main e)) = [])
  /\ (forall e,
      DebugAutomaticClock.lib_exists e = true ->
      DebugAutomaticClock.lib_loads e = true ->
      0 <= DebugAutomaticClock.init_ret e ->
      0 <= DebugAutomaticClock.start_ret e ->
      exists inner,
        calls (snd (DebugAutomaticClock.main e))
        = [midi_init; midi_set_tempo BPM; midi_get_client_id;
           midi_get_port_id; midi_get_queue_id; midi_send_start]
            ++ inner ++ [midi_send_stop; midi_cleanup]
        /\ forallb loop_call inner = true).
Proof.
  split.
  - intros e He Hl Hi Hs. split.
    + destruct (clock_running_calls e He Hl Hi Hs) as (inner & C & F & _).
      exists inner. split; assumption.
    + rewrite (clock_main_running e He Hl Hi Hs). cbn [snd].
      rewrite !set_tempo_calls_app, clock_loop_no_set_tempo. reflexivity.
  - intros e He Hl Hi Hs.
    destruct (debug_running_calls e He Hl Hi Hs) as (inner & C & F & _).
    exists inner. split; assumption.
Qed.

Lemma transport_call_order_witness :
  let e := Clock.mkEnv true true 0 128 0 0 0 0%Qc [mkPulse 0 0 0%Qc 0%Qc] in
  set_tempo_calls (snd (Clock.main e)) = [].
Proof.
  intro e.
  destruct transport_call_order as (H & _).
  apply (H e eq_refl eq_refl); simpl; lia.
Defined.

(** ** The tempo set before START *)

(** X3.  In debugAutomaticClock.py the answer to the [midi_set_tempo(BPM)]
    call made before START changes nothing but a warning line: with any other
    answer the run ends the same way, makes the same library calls and sleeps
    the same times; a negative answer makes a run that initialised the library
    print the warning. *)
Theorem initial_tempo_refusal_only_warns (e : DebugAutomaticClock.Env) (r : Z) :
  fst (DebugAutomaticClock.main (with_tempo_ret r e))
  = fst (DebugAutomaticClock.main e)
  /\ calls (snd (DebugAutomaticClock.main (with_tempo_ret r e)))
     = calls (snd (DebugAutomaticClock.main e))
  /\ sleeps (snd (DebugAutomaticClock.main (with_tempo_ret r e)))
     = sleeps (snd (DebugAutomaticClock.main e))
  /\ (DebugAutomaticClock.lib_exists e = true ->
      DebugAutomaticClock.lib_loads e = true ->
      0 <= DebugAutomaticClock.init_ret e ->
      r < 0 ->
      In (Print (WarnSetTempo BPM))
         (snd (DebugAutomaticClock.main (with_tempo_ret r e)))).
Proof.
  destruct e as [ex ld ini tr cl po qu st tc ts cs].
  unfold with_tempo_ret, DebugAutomaticClock.main.
  cbn [DebugAutomaticClock.lib_exists DebugAutomaticClock.lib_loads
       DebugAutomaticClock.init_ret DebugAutomaticClock.tempo_ret
       DebugAutomaticClock.client_id DebugAutomaticClock.port_id
       DebugAutomaticClock.queue_id DebugAutomaticClock.start_ret
       DebugAutomaticClock.t_change DebugAutomaticClock.t_start
       DebugAutomaticClock.cycles].
  destruct ex; [ | cbn; split_all; trivial; discriminate ].
  destruct ld; [ | cbn; split_all; trivial; discriminate ].
  cbn [negb].
  destruct (Z.ltb_spec ini 0) as [Hi | Hi];
    [ cbn; split_all; trivial; lia | ].
  rewrite (proj2 initial_tick_interval).
  destruct (DebugAutomaticClock.loop cs _) as [st' ev].
  unfold DebugAutomaticClock.announce, DebugAutomaticClock.startup.
  cbn [DebugAutomaticClock.tempo_ret DebugAutomaticClock.client_id
       DebugAutomaticClock.port_id DebugAutomaticClock.queue_id].
  destruct (Z.ltb_spec st 0) as [Hs | Hs];
    destruct (Z.ltb_spec r 0) as [Hr | Hr];
    destruct (tr <? 0);
    cbn [fst snd shutdown];
    rewrite ?calls_app, ?sleeps_app;
    split_all; trivial; try lia; cbn; do 4 right; left; reflexivity.
Qed.

Lemma initial_tempo_refusal_only_warns_witness :
  let e := DebugAutomaticClock.ideal_env 0%Qc 2 in
  In (Print (WarnSetTempo BPM))
     (snd (DebugAutomaticClock.main (with_tempo_ret (-1) e))).
Proof.
  intro e.
  apply (initial_tempo_refusal_only_warns e (-1));
    [ reflexivity | reflexivity | vm_compute; discriminate | lia ].
Defined.

(** ** What no run does *)

Lemma grace_delay_pos : (0 < grace_delay)%Qc.
Proof. reflexivity. Qed.

Lemma debug_announce_quiet (e : DebugAutomaticClock.Env) :
  sleeps (DebugAutomaticClock.announce e) = []
  /\ ~ In (Print ErrorInLoop) (DebugAutomaticClock.announce e).
Proof.
  unfold DebugAutomaticClock.announce.
  destruct (DebugAutomaticClock.tempo_ret e <? 0); cbn;
    (split; [ reflexivity | intuition discriminate ]).
Qed.

(** X4.  No run of either script, whatever the library and the clock answer,
    calls [time.sleep] with a zero or negative time: every sleep of a run is
    strictly positive. *)
Theorem every_sleep_is_positive :
  (forall e, Forall (fun d => (0 < d)%Qc) (sleeps (snd (Clock.main e))))
  /\ (forall e,
      Forall (fun d => (0 < d)%Qc) (sleeps (snd (DebugAutomaticClock.main e)))).
Proof.
  split; intro e.
  - destruct (clock_main_shape e) as [[_ H] | H].
    + destruct H as [H | [H | [H | H]]]; rewrite H; constructor.
    + cbv zeta in H. rewrite H. cbn [snd].
      rewrite !sleeps_app. repeat (apply Forall_app; split);
        try (cbn; constructor).
      * apply sleeps_of_ok_events, clock_loop_events_ok.
      * exact grace_delay_pos.
      * constructor.
  - destruct (debug_main_shape e) as [[_ H] | H].
    + destruct H as [H | [H | [H | H]]]; rewrite H;
        rewrite ?sleeps_app, ?(proj1 (debug_announce_quiet e)); constructor.
    + cbv zeta in H. rewrite H. cbn [snd].
      rewrite !sleeps_app, (proj1 (debug_announce_quiet e)).
      repeat (apply Forall_app; split);
        first [ apply sleeps_of_ok_events, debug_loop_events_ok; simpl; lia
              | cbn; constructor; [ exact grace_delay_pos | constructor ]
              | constructor ].
Qed.

(** ** The absolute deadline *)

(** X7.  After a pass whose pulse is accepted, with a tick interval that is
    not negative and a clock that does not run backwards, the deadline is
    never more than one tick interval behind the clock reading the pass took:
    a longer lag has been cut by the resynchronisation. *)
Theorem deadline_lag_is_bounded (p : Pulse) (s : Ticker) :
  0 <= send_clock_ret p ->
  (0 <= tick_interval s)%Qc ->
  (now_wait p <= now_resync p)%Qc ->
  (now_wait p - tick_interval s
   <= next_tick_time (snd (fst (pulse_cycle p s))))%Qc.
Proof.
  intros Hok Hti Hmono.
  pose proof (pulse_cycle_wait p s Hok) as W.
  destruct (pulse_cycle p s) as [[flow s'] ev]. cbn [fst snd].
  destruct W as (_ & W1 & _ & W3 & W4).
  destruct (Qclt_le_dec 0 (next_tick_time s + tick_interval s - now_wait p))
    as [L | L].
  - destruct (W1 L) as [_ ->]. qc_lra.
  - destruct (Qclt_le_dec (next_tick_time s + tick_interval s - now_wait p)
                          (- tick_interval s)) as [R | R].
    + rewrite (W3 Hti R). qc_lra.
    + rewrite (W4 L R). qc_lra.
Qed.

Lemma deadline_lag_is_bounded_witness :
  let p := mkPulse 0 0 (Z2Qc 9) (Z2Qc 9) in
  let s := mkTicker (Z2Qc 1) 0%Qc 0 0 in
  (now_wait p - tick_interval s
   <= next_tick_time (snd (fst (pulse_cycle p s))))%Qc.
Proof.
  intros p s.
  apply (deadline_lag_is_bounded p s);
    [ simpl; lia | vm_compute; discriminate | vm_compute; discriminate ].
Defined.

(** ** The status lines *)

Lemma status_beats_app (a b : list Event) :
  status_beats (a ++ b) = status_beats a ++ status_beats b.
Proof. apply flat_map_app. Qed.

Lemma status_run_step (b : Z) (n : nat) :
  (b + 1) :: map (fun k => b + 1 + Z.of_nat k) (seq 1 n)
  = map (fun k => b + Z.of_nat k) (seq 1 (S n)).
Proof.
  cbn [seq map]. f_equal; try lia.
  rewrite <- (seq_shift n 1), map_map. apply map_ext. intro k. lia.
Qed.

(** One accepted or refused pulse cycle prints at most one status line, the
    next beat at its tick. *)
Lemma pulse_cycle_status (p : Pulse) (s : Ticker) :
  counters_ok s -> 0 <= tick_count s ->
  let '(flow, s', ev) := pulse_cycle p s in
  Forall status_line_ok (printed ev)
  /\ counters_ok s' /\ 0 <= tick_count s'
  /\ ((beat_count s' = beat_count s /\ status_beats ev = [])
      \/ (beat_count s' = beat_count s + 1
          /\ status_beats ev = [beat_count s + 1])).
Proof.
  intros Hc Ht.
  destruct (Z.ltb_spec (send_clock_ret p) 0) as [L | L].
  - rewrite (pulse_cycle_break p s L). cbn.
    split; [ repeat constructor | ].
    split; [ exact Hc | split; [ exact Ht | left; split; reflexivity ] ].
  - rewrite (pulse_cycle_continue p s L).
    pose proof (wait_next_tick_spec p (fst (count_tick p s))) as W.
    destruct (wait_next_tick p (fst (count_tick p s))) as [s2 ev2].
    destruct W as (_ & W2 & W3 & W4 & W5 & _). cbn [fst snd].
    assert (B2 : status_beats ev2 = []).
    { clear - W5. induction ev2 as [ | e ev2 IH ]; [ reflexivity | ].
      destruct e; cbn in *; try discriminate; auto. }
    change (Call midi_send_clock :: snd (count_tick p s) ++ ev2)
      with ([Call midi_send_clock] ++ snd (count_tick p s) ++ ev2).
    rewrite !printed_app, !status_beats_app, W5, B2, !app_nil_r.
    unfold counters_ok in *. rewrite W2, W3. clear W2 W3 W4 W5 B2.
    unfold count_tick.
    destruct (Z.eqb_spec ((tick_count s + 1) mod PPQN) 0) as [E | E];
      cbn [fst snd tick_count beat_count printed status_beats flat_map app].
    + unfold PPQN in *. split_all.
      * constructor; [ | constructor ].
        unfold status_line_ok, PPQN. rewrite Hc.
        split; Z.to_euclidean_division_equations; lia.
      * rewrite Hc. Z.to_euclidean_division_equations. lia.
      * lia.
      * right. split; reflexivity.
    + unfold PPQN in *. split_all.
      * constructor.
      * rewrite Hc. Z.to_euclidean_division_equations. lia.
      * lia.
      * left. split; reflexivity.
Qed.

Lemma tempo_check_status
      (c : DebugAutomaticClock.Cycle) (st : DebugAutomaticClock.State) :
  Forall status_line_ok (printed (snd (DebugAutomaticClock.tempo_change_check c st)))
  /\ status_beats (snd (DebugAutomaticClock.tempo_change_check c st)) = [].
Proof.
  unfold DebugAutomaticClock.tempo_change_check.
  destruct (Qcleb _ _); [ | split; [ constructor | reflexivity ] ].
  destruct (nth_error _ _) as [b | ]; [ | split; [ constructor | reflexivity ] ].
  destruct (_ <? 0); [ split; [ repeat constructor | reflexivity ] | ].
  destruct (DebugAutomaticClock.calculate_tick_interval b);
    (split; [ repeat constructor | reflexivity ]).
Qed.

Lemma clock_loop_status (cs : list Pulse) :
  forall s,
    counters_ok s -> 0 <= tick_count s ->
    let '(s', ev) := Clock.loop cs s in
    Forall status_line_ok (printed ev)
    /\ exists n,
        beat_count s' = beat_count s + Z.of_nat n
        /\ status_beats ev = map (fun k => beat_count s + Z.of_nat k) (seq 1 n).
Proof.
  induction cs as [ | p cs IH ]; intros s Hc Ht.
  - cbn. split; [ constructor | exists 0%nat; split; [ lia | reflexivity ] ].
  - cbn [Clock.loop].
    pose proof (pulse_cycle_status p s Hc Ht) as P.
    pose proof (pulse_cycle_spec p s) as Q.
    destruct (pulse_cycle p s) as [[flow s1] ev1].
    destruct P as (P1 & P2 & P3 & P4). destruct Q as (Q1 & _).
    assert (Here : exists n,
               beat_count s1 = beat_count s + Z.of_nat n
               /\ status_beats ev1
                  = map (fun k => beat_count s + Z.of_nat k) (seq 1 n)).
    { destruct P4 as [[E B] | [E B]];
        [ exists 0%nat | exists 1%nat ]; rewrite E, B; split; try lia.
      - reflexivity.
      - cbn. do 2 f_equal. }
    destruct flow; [ | split; assumption | congruence ].
    specialize (IH s1 P2 P3). destruct (Clock.loop cs s1) as [s2 ev2].
    destruct IH as (I1 & n & I2 & I3).
    split.
    + rewrite printed_app. apply Forall_app. split; assumption.
    + rewrite status_beats_app, I3.
      destruct P4 as [[E B] | [E B]]; rewrite B, E in *.
      * exists n. split; [ lia | reflexivity ].
      * exists (S n). split; [ lia | ]. cbn [app]. apply status_run_step.
Qed.

Lemma debug_loop_status (cs : list DebugAutomaticClock.Cycle) :
  forall st,
    (DebugAutomaticClock.seq_index st
     < length DebugAutomaticClock.bpm_sequence)%nat ->
    counters_ok (DebugAutomaticClock.ticker st) ->
    0 <= tick_count (DebugAutomaticClock.ticker st) ->
    let '(st', ev) := DebugAutomaticClock.loop cs st in
    Forall status_line_ok (printed ev)
    /\ exists n,
        beat_count (DebugAutomaticClock.ticker st')
        = beat_count (DebugAutomaticClock.ticker st) + Z.of_nat n
        /\ status_beats ev
           = map (fun k => beat_count (DebugAutomaticClock.ticker st) + Z.of_nat k)
                 (seq 1 n).
Proof.
  induction cs as [ | c cs IH ]; intros st Hi Hc Ht.
  - cbn. split; [ constructor | exists 0%nat; split; [ lia | reflexivity ] ].
  - cbn [DebugAutomaticClock.loop].
    pose proof (cycle_spec c st Hi) as Q.
    pose proof (tempo_change_check_spec c st Hi) as T.
    pose proof (tempo_check_status c st) as TS.
    destruct (DebugAutomaticClock.tempo_change_check c st)
      as [[flow0 st0] ev0] eqn:E.
    destruct T as (-> & _ & T2 & T3 & _). cbn [snd] in TS.
    destruct TS as (TS1 & TS2).
    rewrite (cycle_unfold c st st0 ev0 E) in *.
    assert (Hc0 : counters_ok (DebugAutomaticClock.ticker st0))
      by (unfold counters_ok in *; congruence).
    assert (Ht0 : 0 <= tick_count (DebugAutomaticClock.ticker st0)) by lia.
    pose proof (pulse_cycle_status (DebugAutomaticClock.pulse c)
                                   (DebugAutomaticClock.ticker st0) Hc0 Ht0) as P.
    destruct (pulse_cycle _ _) as [[flow s1] ev1]. cbn [fst snd] in *.
    destruct P as (P1 & P2 & P3 & P4). destruct Q as (Q1 & Q2 & _).
    rewrite T3 in P4.
    assert (F : Forall status_line_ok (printed (ev0 ++ ev1)))
      by (rewrite printed_app; apply Forall_app; split; assumption).
    assert (B : status_beats (ev0 ++ ev1) = status_beats ev1)
      by (rewrite status_beats_app, TS2; reflexivity).
    destruct flow; [ | | congruence ].
    + match goal with
      | |- context [DebugAutomaticClock.loop cs ?x] =>
          specialize (IH x Q2 P2 P3);
          destruct (DebugAutomaticClock.loop cs x) as [st2 ev2]
      end.
      cbn [DebugAutomaticClock.ticker] in IH.
      destruct IH as (I1 & n & I2 & I3).
      split.
      * rewrite printed_app. apply Forall_app. split; assumption.
      * rewrite status_beats_app, B, I3.
        destruct P4 as [[E1 B1] | [E1 B1]]; rewrite B1, E1 in *.
        -- exists n. split; [ lia | reflexivity ].
        -- exists (S n). split; [ lia | ]. cbn [app]. apply status_run_step.
    + split; [ exact F | ]. rewrite B. cbn [DebugAutomaticClock.ticker].
      destruct P4 as [[E1 B1] | [E1 B1]];
        [ exists 0%nat | exists 1%nat ]; rewrite E1, B1; split; try lia.
      * reflexivity.
      * cbn. do 2 f_equal.
Qed.

(** X8.  In both scripts the status lines of a run are numbered without gap
    or repeat: the lines printed by the loop carry the beats 1, 2, ..., up to
    the final [beat_count], in this order, and each names its beat [b >= 1]
    at pulse [24 b]. *)
Theorem status_lines_count_beats :
  (forall cs interval t,
      let '(s, ev) := Clock.loop cs (Clock.init_ticker interval t) in
      Forall status_line_ok (printed ev)
      /\ status_beats ev = map Z.of_nat (seq 1 (Z.to_nat (beat_count s))))
  /\ (forall cs interval tc ts,
      let '(st, ev) :=
        DebugAutomaticClock.loop
          cs (DebugAutomaticClock.init_state interval tc ts) in
      Forall status_line_ok (printed ev)
      /\ status_beats ev
         = map Z.of_nat
               (seq 1 (Z.to_nat (beat_count (DebugAutomaticClock.ticker st))))).
Proof.
  split.
  - intros cs interval t.
    pose proof (clock_loop_status cs (Clock.init_ticker interval t)
                                  eq_refl ltac:(simpl; lia)) as L.
    destruct (Clock.loop cs _) as [s ev].
    destruct L as (L1 & n & L2 & L3). split; [ exact L1 | ].
    rewrite L3, L2. cbn [Clock.init_ticker beat_count].
    rewrite Z.add_0_l, Nat2Z.id. apply map_ext. intro k. lia.
  - intros cs interval tc ts.
    pose proof (debug_loop_status
                  cs (DebugAutomaticClock.init_state interval tc ts)
                  ltac:(simpl; lia) eq_refl ltac:(simpl; lia)) as L.
    destruct (DebugAutomaticClock.loop cs _) as [st ev].
    destruct L as (L1 & n & L2 & L3). split; [ exact L1 | ].
    rewrite L3, L2.
    cbn [DebugAutomaticClock.init_state DebugAutomaticClock.ticker beat_count].
    rewrite Z.add_0_l, Nat2Z.id. apply map_ext. intro k. lia.
Qed.

(** ** Pulses sent and pulses counted *)

Lemma cycle_one_pulse
      (c : DebugAutomaticClock.Cycle) (st : DebugAutomaticClock.State) :
  (DebugAutomaticClock.seq_index st
   < length DebugAutomaticClock.bpm_sequence)%nat ->
  count is_send_clock (snd (DebugAutomaticClock.cycle c st)) = 1%nat.
Proof.
  intro Hi.
  pose proof (tempo_change_check_spec c st Hi) as T.
  destruct (DebugAutomaticClock.tempo_change_check c st)
    as [[flow st1] ev1] eqn:E.
  destruct T as (-> & _ & _ & _ & _ & T5 & _).
  rewrite (cycle_unfold c st st1 ev1 E). cbn [snd].
  pose proof (pulse_cycle_spec (DebugAutomaticClock.pulse c)
                               (DebugAutomaticClock.ticker st1)) as P.
  destruct (pulse_cycle _ _) as [[flow tk] ev2].
  destruct P as (_ & _ & _ & P4 & _). cbn [snd].
  rewrite count_app, T5, P4. reflexivity.
Qed.

(** X9.  In both loops the pulse counter counts exactly the pulses the
    library accepted: the number of [midi_send_clock] calls of the loop is the
    gain in [tick_count], plus one when the loop was ended by a refused
    pulse; a refused pulse is never counted and an accepted one never
    missed. *)
Theorem pulses_sent_and_counted :
  (forall cs s,
      let '(s', ev) := Clock.loop cs s in
      Z.of_nat (count is_send_clock ev)
      = tick_count s' - tick_count s
        + (if existsb refused cs then 1 else 0))
  /\ (forall cs st,
      (DebugAutomaticClock.seq_index st
       < length DebugAutomaticClock.bpm_sequence)%nat ->
      let '(st', ev) := DebugAutomaticClock.loop cs st in
      Z.of_nat (count is_send_clock ev)
      = tick_count (DebugAutomaticClock.ticker st')
        - tick_count (DebugAutomaticClock.ticker st)
        + (if existsb (fun c => refused (DebugAutomaticClock.pulse c)) cs
           then 1 else 0)).
Proof.
  split.
  - induction cs as [ | p cs IH ]; intro s.
    + cbn. lia.
    + cbn [Clock.loop existsb]. unfold refused at 1.
      pose proof (pulse_cycle_spec p s) as P.
      destruct (pulse_cycle p s) as [[flow s1] ev1].
      destruct P as (P1 & _ & _ & P4 & _ & _ & P7 & P8).
      destruct (Z.ltb_spec (send_clock_ret p) 0) as [L | L].
      * destruct (P8 L) as [-> ->]. cbn [orb]. rewrite P4. lia.
      * destruct (P7 L) as [-> Pt]. cbn [orb].
        specialize (IH s1). destruct (Clock.loop cs s1) as [s2 ev2].
        rewrite count_app, P4, Nat2Z.inj_add, IH. lia.
  - induction cs as [ | c cs IH ]; intros st Hi.
    + cbn. lia.
    + cbn [DebugAutomaticClock.loop existsb]. unfold refused at 1.
      pose proof (cycle_spec c st Hi) as P.
      pose proof (cycle_one_pulse c st Hi) as One.
      destruct (DebugAutomaticClock.cycle c st) as [[flow st1] ev1].
      cbn [snd] in One.
      destruct P as (P1 & P2 & _ & _ & _ & P6 & P7).
      destruct (Z.ltb_spec (send_clock_ret (DebugAutomaticClock.pulse c)) 0)
        as [L | L].
      * destruct (P7 L) as (-> & Pt & _). cbn [orb]. rewrite One. lia.
      * destruct (P6 L) as [-> Pt]. cbn [orb].
        specialize (IH st1 P2).
        destruct (DebugAutomaticClock.loop cs st1) as [st2 ev2].
        rewrite count_app, One, Nat2Z.inj_add, IH. lia.
Qed.

Lemma pulses_sent_and_counted_witness :
  let st := DebugAutomaticClock.init_state (Z2Qc 1) 0%Qc 0%Qc in
  let ok := DebugAutomaticClock.mkCycle 0%Qc 0 (mkPulse 0 0 0%Qc 0%Qc) in
  let bad := DebugAutomaticClock.mkCycle 0%Qc 0 (mkPulse (-1) 0 0%Qc 0%Qc) in
  Z.of_nat (count is_send_clock (snd (DebugAutomaticClock.loop [ok; bad; ok] st)))
  = tick_count (DebugAutomaticClock.ticker
                  (fst (DebugAutomaticClock.loop [ok; bad; ok] st)))
    - 0 + 1.
Proof.
  intros st ok bad.
  destruct pulses_sent_and_counted as (_ & H).
  specialize (H [ok; bad; ok] st ltac:(simpl; lia)).
  destruct (DebugAutomaticClock.loop [ok; bad; ok] st) as [st' ev].
  exact H.
Defined.

(** ** The tempo state of debugAutomaticClock.py *)

Lemma tempo_consistent_check
      (c : DebugAutomaticClock.Cycle) (st : DebugAutomaticClock.State) :
  (DebugAutomaticClock.seq_index st
   < length DebugAutomaticClock.bpm_sequence)%nat ->
  tempo_consistent st ->
  tempo_consistent (snd (fst (DebugAutomaticClock.tempo_change_check c st))).
Proof.
  intros Hi [H1 H2]. destruct (index_in_range _ Hi) as [b Hb].
  destruct (Qclt_le_dec (DebugAutomaticClock.now c)
                        (DebugAutomaticClock.next_change_time st)) as [L | L].
  - rewrite (tempo_check_not_due c st L). split; assumption.
  - destruct (Z.ltb_spec (DebugAutomaticClock.set_tempo_ret c) 0) as [R | R].
    + rewrite (tempo_check_refused c st b L Hb R). split; assumption.
    + rewrite (tempo_check_applied c st b L Hb R).
      split; cbn [fst snd DebugAutomaticClock.current_bpm
                  DebugAutomaticClock.ticker
                  DebugAutomaticClock.set_next_tick_time
                  DebugAutomaticClock.set_tick_interval tick_interval].
      * apply tick_interval_defined. exact (bpm_sequence_pos _ _ Hb).
      * right. exact (nth_error_In _ _ Hb).
Qed.

(** X10.  In debugAutomaticClock.py the interval the loop paces itself with
    is always the interval of the tempo it believes in: from a state in which
    [tick_interval] is the tick interval of [current_bpm], and [current_bpm]
    is the starting tempo or a schedule entry, every loop, however it ends
    and whatever [midi_set_tempo] answers, leaves such a state; so
    [current_bpm] stays positive and [tick_interval] is never stale. *)
Theorem tempo_and_interval_agree (cs : list DebugAutomaticClock.Cycle) :
  forall st,
    (DebugAutomaticClock.seq_index st
     < length DebugAutomaticClock.bpm_sequence)%nat ->
    tempo_consistent st ->
    tempo_consistent (fst (DebugAutomaticClock.loop cs st))
    /\ 0 < DebugAutomaticClock.current_bpm (fst (DebugAutomaticClock.loop cs st)).
Proof.
  assert (Pos : forall st, tempo_consistent st ->
                           0 < DebugAutomaticClock.current_bpm st).
  { intros st [_ [H | H]]; [ rewrite <- H; reflexivity | ].
    apply In_nth_error in H. destruct H as [i H].
    exact (bpm_sequence_pos _ _ H). }
  induction cs as [ | c cs IH ]; intros st Hi Hc.
  - cbn. split; [ exact Hc | exact (Pos st Hc) ].
  - cbn [DebugAutomaticClock.loop].
    pose proof (cycle_spec c st Hi) as P.
    pose proof (tempo_consistent_check c st Hi Hc) as K.
    pose proof (tempo_change_check_spec c st Hi) as T.
    destruct (DebugAutomaticClock.tempo_change_check c st)
      as [[flow0 st0] ev0] eqn:E.
    destruct T as (-> & _). cbn [fst snd] in K.
    rewrite (cycle_unfold c st st0 ev0 E) in *.
    pose proof (pulse_cycle_spec (DebugAutomaticClock.pulse c)
                                 (DebugAutomaticClock.ticker st0)) as Q.
    destruct (pulse_cycle _ _) as [[flow s1] ev1]. cbn [fst snd] in *.
    destruct Q as (Q1 & Q2 & _). destruct P as (_ & P2 & _).
    assert (K1 : tempo_consistent
                   (DebugAutomaticClock.mkState
                      (DebugAutomaticClock.current_bpm st0)
                      (DebugAutomaticClock.seq_index st0)
                      (DebugAutomaticClock.next_change_time st0) s1)).
    { destruct K as [K1 K2]. split; cbn; [ rewrite Q2; exact K1 | exact K2 ]. }
    destruct flow; [ | | congruence ].
    + match goal with
      | |- context [DebugAutomaticClock.loop cs ?x] =>
          specialize (IH x P2 K1);
          destruct (DebugAutomaticClock.loop cs x) as [st2 ev2]
      end.
      exact IH.
    + cbn [fst]. split; [ exact K1 | exact (Pos _ K1) ].
Qed.

Lemma tempo_and_interval_agree_witness :
  let st := DebugAutomaticClock.init_state
              (1 / (Z2Qc BPM / Z2Qc 60 * Z2Qc PPQN))%Qc 0%Qc 0%Qc in
  let c := DebugAutomaticClock.mkCycle (Z2Qc 10) 0
             (mkPulse 0 0 (Z2Qc 10) (Z2Qc 10)) in
  tempo_consistent (fst (DebugAutomaticClock.loop [c] st)).
Proof.
  intros st c.
  apply (tempo_and_interval_agree [c] st).
  - simpl. lia.
  - split; [ exact (proj2 initial_tick_interval) | left; reflexivity ].
Defined.

(** ** The schedule, in any run *)

Lemma tempo_changes_app (a b : list Event) :
  DebugAutomaticClock.tempo_changes (a ++ b)
  = DebugAutomaticClock.tempo_changes a ++ DebugAutomaticClock.tempo_changes b.
Proof. apply flat_map_app. Qed.

Lemma pulse_cycle_no_tempo_change (p : Pulse) (s : Ticker) :
  DebugAutomaticClock.tempo_changes (snd (pulse_cycle p s)) = [].
Proof.
  destruct (Z.ltb_spec (send_clock_ret p) 0) as [L | L].
  - rewrite (pulse_cycle_break p s L). reflexivity.
  - rewrite (pulse_cycle_continue p s L). cbn [snd].
    change (Call midi_send_clock :: ?a ++ ?b)
      with ([Call midi_send_clock] ++ a ++ b).
    rewrite !tempo_changes_app.
    assert (A : DebugAutomaticClock.tempo_changes (snd (count_tick p s)) = [])
      by (unfold count_tick; destruct (_ =? 0); reflexivity).
    assert (B : forall s1,
               DebugAutomaticClock.tempo_changes (snd (wait_next_tick p s1)) = []).
    { intro s1. unfold wait_next_tick. cbv zeta.
      destruct (Qcltb 0%Qc _); [ reflexivity | ].
      destruct (Qcltb _ (- _)%Qc); reflexivity. }
    rewrite A, B. reflexivity.
Qed.

Lemma last_default_irrelevant {A : Type} (l : list A) (d d' : A) :
  l <> [] -> last l d = last l d'.
Proof.
  induction l as [ | x l IH ]; intro N; [ congruence | ].
  destruct l as [ | y l ]; [ reflexivity | ].
  change (last (y :: l) d = last (y :: l) d'). apply IH. discriminate.
Qed.

Lemma last_app_default {A : Type} (a b : list A) (d : A) :
  last (a ++ b) d = last b (last a d).
Proof.
  induction a as [ | x a IH ]; [ reflexivity | ].
  destruct a as [ | y a ].
  - destruct b as [ | z b ]; [ reflexivity | ].
    change (last (z :: b) d = last (z :: b) x).
    apply last_default_irrelevant. discriminate.
  - change (last ((y :: a) ++ b) d = last b (last (y :: a) d)). exact IH.
Qed.

(** What one pass does to the schedule: nothing, or one step. *)
Lemma cycle_schedule
      (c : DebugAutomaticClock.Cycle) (st : DebugAutomaticClock.State) :
  (DebugAutomaticClock.seq_index st
   < length DebugAutomaticClock.bpm_sequence)%nat ->
  let '(flow, st', ev) := DebugAutomaticClock.cycle c st in
  (set_tempo_calls ev = []
   /\ DebugAutomaticClock.tempo_changes ev = []
   /\ DebugAutomaticClock.next_change_time st'
      = DebugAutomaticClock.next_change_time st
   /\ DebugAutomaticClock.seq_index st' = DebugAutomaticClock.seq_index st
   /\ DebugAutomaticClock.current_bpm st' = DebugAutomaticClock.current_bpm st)
  \/ (exists b,
         nth_error DebugAutomaticClock.bpm_sequence
                   (DebugAutomaticClock.seq_index st) = Some b
         /\ set_tempo_calls ev = [b]
         /\ DebugAutomaticClock.next_change_time st'
            = (DebugAutomaticClock.next_change_time st
               + DebugAutomaticClock.change_period)%Qc
         /\ DebugAutomaticClock.seq_index st'
            = ((DebugAutomaticClock.seq_index st + 1)
                 mod length DebugAutomaticClock.bpm_sequence)%nat
         /\ ((DebugAutomaticClock.tempo_changes ev = []
              /\ DebugAutomaticClock.current_bpm st'
                 = DebugAutomaticClock.current_bpm st)
             \/ (DebugAutomaticClock.tempo_changes ev = [b]
                 /\ DebugAutomaticClock.current_bpm st' = b))).
Proof.
  intro Hi. destruct (index_in_range _ Hi) as [b Hb].
  pose proof (pulse_cycle_no_tempo_change (DebugAutomaticClock.pulse c)) as N.
  assert (M : forall s, set_tempo_calls
                          (snd (pulse_cycle (DebugAutomaticClock.pulse c) s)) = []).
  { intro s. pose proof (pulse_cycle_spec (DebugAutomaticClock.pulse c) s) as P.
    destruct (pulse_cycle _ _) as [[f tk] ev]. apply P. }
  destruct (Qclt_le_dec (DebugAutomaticClock.now c)
                        (DebugAutomaticClock.next_change_time st)) as [L | L].
  - rewrite (cycle_unfold c st _ _ (tempo_check_not_due c st L)).
    left. cbn [app]. rewrite N, M. repeat split.
  - destruct (Z.ltb_spec (DebugAutomaticClock.set_tempo_ret c) 0) as [R | R].
    + rewrite (cycle_unfold c st _ _ (tempo_check_refused c st b L Hb R)).
      right. exists b.
      rewrite set_tempo_calls_app, tempo_changes_app, N, M.
      split; [ exact Hb | ]. do 3 (split; [ reflexivity | ]).
      left. split; reflexivity.
    + rewrite (cycle_unfold c st _ _ (tempo_check_applied c st b L Hb R)).
      right. exists b.
      rewrite set_tempo_calls_app, tempo_changes_app, N, M.
      split; [ exact Hb | ]. do 3 (split; [ reflexivity | ]).
      right. split; reflexivity.
Qed.

Lemma entries_from_0 (i : nat) : entries_from i 0 = [].
Proof. reflexivity. Qed.

(** X11.  In any run of the tempo-varying loop, stalled or not, with
    [midi_set_tempo] accepting or refusing, the tempi handed to
    [midi_set_tempo] are the schedule entries in cyclic order from the current
    index, none skipped and none repeated; after [k] of them the index has
    moved [k] steps and the next change time [10 k] seconds. *)
Theorem schedule_is_walked_in_order (cs : list DebugAutomaticClock.Cycle) :
  forall st,
    (DebugAutomaticClock.seq_index st
     < length DebugAutomaticClock.bpm_sequence)%nat ->
    let '(st', ev) := DebugAutomaticClock.loop cs st in
    let k := length (set_tempo_calls ev) in
    set_tempo_calls ev = entries_from (DebugAutomaticClock.seq_index st) k
    /\ DebugAutomaticClock.next_change_time st'
       = (DebugAutomaticClock.next_change_time st
          + DebugAutomaticClock.change_period * Z2Qc (Z.of_nat k))%Qc
    /\ DebugAutomaticClock.seq_index st'
       = ((DebugAutomaticClock.seq_index st + k)
            mod length DebugAutomaticClock.bpm_sequence)%nat.
Proof.
  assert (Base : forall st,
             (DebugAutomaticClock.seq_index st
              < length DebugAutomaticClock.bpm_sequence)%nat ->
             DebugAutomaticClock.next_change_time st
             = (DebugAutomaticClock.next_change_time st
                + DebugAutomaticClock.change_period * Z2Qc (Z.of_nat 0))%Qc
             /\ DebugAutomaticClock.seq_index st
                = ((DebugAutomaticClock.seq_index st + 0)
                     mod length DebugAutomaticClock.bpm_sequence)%nat).
  { intros st Hi. split.
    - change (Z2Qc (Z.of_nat 0)) with 0%Qc. ring.
    - rewrite Nat.add_0_r. symmetry. now apply Nat.mod_small. }
  assert (Step : forall st b,
             (DebugAutomaticClock.seq_index st
              < length DebugAutomaticClock.bpm_sequence)%nat ->
             nth_error DebugAutomaticClock.bpm_sequence
                       (DebugAutomaticClock.seq_index st) = Some b ->
             forall k,
               b :: entries_from
                      ((DebugAutomaticClock.seq_index st + 1)
                         mod length DebugAutomaticClock.bpm_sequence) k
               = entries_from (DebugAutomaticClock.seq_index st) (S k)).
  { intros st b Hi Hb k. rewrite (entries_from_S _ _ Hi). f_equal.
    symmetry. now apply nth_error_nth. }
  induction cs as [ | c cs IH ]; intros st Hi.
  - cbn [DebugAutomaticClock.loop set_tempo_calls flat_map length].
    cbv zeta. split; [ reflexivity | exact (Base st Hi) ].
  - cbn [DebugAutomaticClock.loop].
    pose proof (cycle_spec c st Hi) as P.
    pose proof (cycle_schedule c st Hi) as Q.
    destruct (DebugAutomaticClock.cycle c st) as [[flow st1] ev1].
    destruct P as (P1 & P2 & _).
    destruct flow; [ | | congruence ].
    + specialize (IH st1 P2).
      destruct (DebugAutomaticClock.loop cs st1) as [st2 ev2].
      cbv zeta in *. destruct IH as (I1 & I2 & I3).
      rewrite set_tempo_calls_app, length_app.
      remember (length (set_tempo_calls ev2)) as k2 eqn:Hk2. clear Hk2.
      destruct Q as [(Q1 & _ & Q3 & Q4 & _) | (b & Hb & Q1 & Q3 & Q4 & _)];
        rewrite Q1; cbn [length app Nat.add].
      * rewrite I1, I2, I3, Q3, Q4. repeat split.
      * rewrite I1, I2, I3, Q3, Q4. split_all.
        -- apply (Step st b Hi Hb).
        -- rewrite Z2Qc_succ. ring.
        -- rewrite Nat.Div0.add_mod_idemp_l. f_equal. lia.
    + cbv zeta.
      destruct Q as [(Q1 & _ & Q3 & Q4 & _) | (b & Hb & Q1 & Q3 & Q4 & _)];
        rewrite Q1; cbn [length].
      * rewrite Q3, Q4. split; [ reflexivity | exact (Base st Hi) ].
      * rewrite Q3, Q4. split_all.
        -- rewrite <- (Step st b Hi Hb). reflexivity.
        -- change (Z2Qc (Z.of_nat 1)) with 1%Qc. ring.
        -- reflexivity.
Qed.

Lemma schedule_is_walked_in_order_witness :
  let st := DebugAutomaticClock.init_state (Q2Qc (1 # 48)) 0%Qc 0%Qc in
  let c t r := DebugAutomaticClock.mkCycle (Z2Qc t) r
                 (mkPulse 0 0 (Z2Qc t) (Z2Qc t)) in
  let cs := [c 5 0; c 12 (-1); c 15 0; c 27 0] in
  set_tempo_calls (snd (DebugAutomaticClock.loop cs st))
  = entries_from 0 (length (set_tempo_calls (snd (DebugAutomaticClock.loop cs st)))).
Proof.
  intros st c cs.
  pose proof (schedule_is_walked_in_order cs st ltac:(simpl; lia)) as H.
  destruct (DebugAutomaticClock.loop cs st) as [st' ev].
  cbv zeta in H. cbn [snd]. apply H.
Defined.

(** X12.  In any run of the tempo-varying loop, [current_bpm] is the tempo of
    the last change the library accepted, or the tempo the loop started with
    if it accepted none: a refused change never reaches [current_bpm], and an
    accepted one always does. *)
Theorem current_bpm_is_last_accepted (cs : list DebugAutomaticClock.Cycle) :
  forall st,
    (DebugAutomaticClock.seq_index st
     < length DebugAutomaticClock.bpm_sequence)%nat ->
    let '(st', ev) := DebugAutomaticClock.loop cs st in
    DebugAutomaticClock.current_bpm st'
    = last (DebugAutomaticClock.tempo_changes ev)
           (DebugAutomaticClock.current_bpm st).
Proof.
  induction cs as [ | c cs IH ]; intros st Hi; [ reflexivity | ].
  cbn [DebugAutomaticClock.loop].
  pose proof (cycle_spec c st Hi) as P.
  pose proof (cycle_schedule c st Hi) as Q.
  destruct (DebugAutomaticClock.cycle c st) as [[flow st1] ev1].
  destruct P as (P1 & P2 & _).
  assert (Here : DebugAutomaticClock.current_bpm st1
                 = last (DebugAutomaticClock.tempo_changes ev1)
                        (DebugAutomaticClock.current_bpm st)).
  { destruct Q as [(_ & Q2 & _ & _ & Q5)
                  | (b & _ & _ & _ & _ & [[Q2 Q5] | [Q2 Q5]])];
      rewrite Q2, Q5; reflexivity. }
  destruct flow; [ | exact Here | congruence ].
  specialize (IH st1 P2).
  destruct (DebugAutomaticClock.loop cs st1) as [st2 ev2].
  rewrite tempo_changes_app, last_app_default, <- Here. exact IH.
Qed.

Lemma current_bpm_is_last_accepted_witness :
  let st := DebugAutomaticClock.init_state (Q2Qc (1 # 48)) 0%Qc 0%Qc in
  let c t r := DebugAutomaticClock.mkCycle (Z2Qc t) r
                 (mkPulse 0 0 (Z2Qc t) (Z2Qc t)) in
  let cs := [c 12 0; c 25 (-1)] in
  DebugAutomaticClock.current_bpm (fst (DebugAutomaticClock.loop cs st))
  = last (DebugAutomaticClock.tempo_changes
            (snd (DebugAutomaticClock.loop cs st))) 120.
Proof.
  intros st c cs.
  pose proof (current_bpm_is_last_accepted cs st ltac:(simpl; lia)) as H.
  destruct (DebugAutomaticClock.loop cs st) as [st' ev]. exact H.
Defined.

(** ** The schedule index *)

(** X5.  In debugAutomaticClock.py the schedule index never leaves the
    list: started with [seq_index] inside [bpm_sequence], the loop, after any
    number of passes, however it ends and whatever [midi_set_tempo] answers,
    leaves [seq_index] inside the list, at an entry that is a positive tempo.
    So the lookup [bpm_sequence[seq_index]] of the next pass finds an entry
    (it cannot raise IndexError) and the tempo it hands on is never zero. *)
Theorem schedule_index_stays_in_range (cs : list DebugAutomaticClock.Cycle) :
  forall st,
    (DebugAutomaticClock.seq_index st
     < length DebugAutomaticClock.bpm_sequence)%nat ->
    let st' := fst (DebugAutomaticClock.loop cs st) in
    (DebugAutomaticClock.seq_index st'
     < length DebugAutomaticClock.bpm_sequence)%nat
    /\ exists b,
        nth_error DebugAutomaticClock.bpm_sequence
                  (DebugAutomaticClock.seq_index st') = Some b
        /\ 0 < b.
Proof.
  assert (Entry : forall st,
             (DebugAutomaticClock.seq_index st
              < length DebugAutomaticClock.bpm_sequence)%nat ->
             (DebugAutomaticClock.seq_index st
              < length DebugAutomaticClock.bpm_sequence)%nat
             /\ exists b,
                 nth_error DebugAutomaticClock.bpm_sequence
                           (DebugAutomaticClock.seq_index st) = Some b
                 /\ 0 < b).
  { intros st Hi. split; [ exact Hi | ].
    destruct (index_in_range _ Hi) as [b Hb].
    exists b. split; [ exact Hb | exact (bpm_sequence_pos _ _ Hb) ]. }
  induction cs as [ | c cs IH ]; intros st Hi; [ exact (Entry st Hi) | ].
  cbn [DebugAutomaticClock.loop].
  pose proof (cycle_spec c st Hi) as P.
  destruct (DebugAutomaticClock.cycle c st) as [[flow st1] ev1].
  destruct P as (P1 & P2 & _).
  destruct flow; [ | exact (Entry st1 P2) | congruence ].
  specialize (IH st1 P2). cbv zeta in IH.
  destruct (DebugAutomaticClock.loop cs st1) as [st2 ev2]. exact IH.
Qed.

Lemma schedule_index_stays_in_range_witness :
  let st := DebugAutomaticClock.init_state (Q2Qc (1 # 48)) 0%Qc 0%Qc in
  let c t r := DebugAutomaticClock.mkCycle (Z2Qc t) r
                 (mkPulse 0 0 (Z2Qc t) (Z2Qc t)) in
  let cs := [c 12 0; c 25 (-1); c 31 0; c 47 0] in
  (DebugAutomaticClock.seq_index (fst (DebugAutomaticClock.loop cs st))
   < length DebugAutomaticClock.bpm_sequence)%nat.
Proof.
  intros st c cs.
  apply (schedule_index_stays_in_range cs st). simpl. lia.
Defined.
